(** * Cost-Estimator: the response normalizer of [AICostEstimator.tsx]

    A shallow embedding of [extractAndParseJSON] and of the mapping and
    completion steps of [analyzeProject], with the properties the
    specification states about them.

    JavaScript strings are sequences of UTF-16 code units; a code unit is
    an [N].  The regular expressions of the source run on a small
    backtracking matcher that follows the ECMAScript matching order
    (leftmost start, greedy star, backtracking), and [JSON.parse] is
    embedded as a recursive-descent parser of the JSON grammar. *)

From Stdlib Require Import List NArith ZArith QArith Qabs Qreduction Bool
  Lia String Ascii Finite.
Import ListNotations.

Local Open Scope N_scope.
Local Open Scope list_scope.

(** ** JavaScript strings *)

Module JSStr.

Definition CodeUnit : Type := N.
Definition JSString : Type := list CodeUnit.

(** An ASCII literal as a JavaScript string. *)
Definition str (s : string) : JSString :=
  map N_of_ascii (list_ascii_of_string s).

Definition lbrace : CodeUnit := 123.
Definition rbrace : CodeUnit := 125.
Definition lbracket : CodeUnit := 91.
Definition rbracket : CodeUnit := 93.
Definition slash : CodeUnit := 47.
Definition backslash : CodeUnit := 92.
Definition comma : CodeUnit := 44.
Definition colon : CodeUnit := 58.
Definition dquote : CodeUnit := 34.
Definition LF : CodeUnit := 10.
Definition CR : CodeUnit := 13.
Definition LS : CodeUnit := 8232.
Definition PS : CodeUnit := 8233.

(** [quoted s] is [s] between two double quotes. *)
Definition quoted (s : string) : JSString := dquote :: str s ++ [dquote].

Fixpoint eqs (a b : JSString) : bool :=
  match a, b with
  | [], [] => true
  | x :: a', y :: b' => (x =? y) && eqs a' b'
  | _, _ => false
  end.

(** ECMAScript LineTerminator: what [.] refuses and what [$] with the
    [m] flag stops before. *)
Definition isLineTerminator (c : CodeUnit) : bool :=
  (c =? LF) || (c =? CR) || (c =? LS) || (c =? PS).

(** ECMAScript WhiteSpace and LineTerminator: the class [\s]. *)
Definition isRegexSpace (c : CodeUnit) : bool :=
  (c =? 9) || (c =? 10) || (c =? 11) || (c =? 12) || (c =? 13) || (c =? 32)
  || (c =? 160) || (c =? 5760) || ((8192 <=? c) && (c <=? 8202))
  || (c =? 8232) || (c =? 8233) || (c =? 8239) || (c =? 8287)
  || (c =? 12288) || (c =? 65279).

End JSStr.
Export JSStr.

(** ** The regular expressions of the source

    Every pattern of the source is a sequence of single-character
    classes, greedy stars over a class, and the end-of-line assertion.
    [matchHere] tries the pattern at the head of the text and follows
    the ECMAScript order of alternatives: a star first takes one more
    character and only when the rest of the pattern fails after that
    gives the character back. *)

Module Regex.

Inductive atom : Type :=
| One (p : CodeUnit -> bool)
| Many (p : CodeUnit -> bool)
| EndOfLine.

Definition pattern : Type := list atom.

(** [$] under the [m] flag: at the end of the input or before a line
    terminator. *)
Definition atEndOfLine (s : JSString) : bool :=
  match s with
  | [] => true
  | c :: _ => isLineTerminator c
  end.

Definition consMatch (c : CodeUnit) (r : option (JSString * JSString))
  : option (JSString * JSString) :=
  match r with
  | Some (m, rest) => Some (c :: m, rest)
  | None => None
  end.

(** The matched text and what follows it, or [None]. *)
Fixpoint matchHere (r : pattern) (s : JSString)
  : option (JSString * JSString) :=
  match r with
  | [] => Some ([], s)
  | One p :: r' =>
      match s with
      | c :: s' => if p c then consMatch c (matchHere r' s') else None
      | [] => None
      end
  | Many p :: r' =>
      (fix star (s : JSString) : option (JSString * JSString) :=
         match s with
         | c :: s' =>
             if p c then
               match consMatch c (star s') with
               | Some x => Some x
               | None => matchHere r' s
               end
             else matchHere r' s
         | [] => matchHere r' s
         end) s
  | EndOfLine :: r' => if atEndOfLine s then matchHere r' s else None
  end.

(** [RegExpBuiltinExec] without the [g] flag: the first index, from 0
    upwards, where the pattern matches.  The result is the text before
    the match, the match, and the text after it. *)
Fixpoint exec (r : pattern) (s : JSString)
  : option (JSString * JSString * JSString) :=
  match matchHere r s with
  | Some (m, rest) => Some ([], m, rest)
  | None =>
      match s with
      | [] => None
      | c :: s' =>
          match exec r s' with
          | Some (pre, m, rest) => Some (c :: pre, m, rest)
          | None => None
          end
      end
  end.

(** [String.prototype.match] with a pattern that has no [g] flag;
    the result is element 0 of the match array. *)
Definition stringMatch (r : pattern) (s : JSString) : option JSString :=
  match exec r s with
  | Some (_, m, _) => Some m
  | None => None
  end.

(** [String.prototype.replace] with a [g] pattern and a constant
    replacement.  The text is scanned from left to right; [skip] counts
    the characters that still belong to the last match.  After an empty
    match the scan moves on by one character, as [lastIndex] does. *)
Fixpoint replaceFrom (r : pattern) (rep : JSString) (skip : nat)
  (s : JSString) : JSString :=
  match s with
  | [] =>
      match skip, matchHere r [] with
      | O, Some _ => rep
      | _, _ => []
      end
  | c :: s' =>
      match skip with
      | S k => replaceFrom r rep k s'
      | O =>
          match matchHere r s with
          | Some (m, _) =>
              match List.length m with
              | O => rep ++ c :: replaceFrom r rep O s'
              | S k => rep ++ replaceFrom r rep k s'
              end
          | None => c :: replaceFrom r rep O s'
          end
      end
  end.

Definition replaceAll (r : pattern) (rep : JSString) (s : JSString)
  : JSString :=
  replaceFrom r rep O s.

Definition anyChar (_ : CodeUnit) : bool := true.
Definition notLineTerminator (c : CodeUnit) : bool :=
  negb (isLineTerminator c).
Definition isChar (x : CodeUnit) (c : CodeUnit) : bool := c =? x.

(** [/{[\s\S]*}/] *)
Definition reObject : pattern := [One (isChar lbrace); Many anyChar; One (isChar rbrace)].
(** [/\/\/.*$/gm] *)
Definition reLineComment : pattern :=
  [One (isChar slash); One (isChar slash); Many notLineTerminator; EndOfLine].
(** [/,\s*}/g] *)
Definition reCommaBrace : pattern :=
  [One (isChar comma); Many isRegexSpace; One (isChar rbrace)].
(** [/,\s*]/g] *)
Definition reCommaBracket : pattern :=
  [One (isChar comma); Many isRegexSpace; One (isChar rbracket)].

End Regex.
Export Regex.

(** ** JavaScript values

    The values [JSON.parse] can return, and [undefined].  A number is the
    exact rational its JSON literal denotes, kept in lowest terms; the
    rounding to binary64 is left out, except where [ToBoolean] needs it
    (see [roundsToZero]).  An object is the list of its own properties in
    insertion order, with one entry per key. *)

Module Value.

#[local] Set Warnings "-register-all".

Inductive JSValue : Type :=
| VUndefined
| VNull
| VBool (b : bool)
| VNumber (q : Q)
| VString (s : JSString)
| VArray (items : list JSValue)
| VObject (props : list (JSString * JSValue)).

Definition ofN (n : N) : JSValue := VNumber (Z.of_N n # 1).

Fixpoint lookupProp (k : JSString) (props : list (JSString * JSValue))
  : option JSValue :=
  match props with
  | [] => None
  | (k', v) :: rest => if eqs k k' then Some v else lookupProp k rest
  end.

(** [CreateDataProperty]: an existing key keeps its place and takes the
    new value, a new key goes last. *)
Fixpoint setProp (k : JSString) (v : JSValue)
  (props : list (JSString * JSValue)) : list (JSString * JSValue) :=
  match props with
  | [] => [(k, v)]
  | (k', v') :: rest =>
      if eqs k k' then (k', v) :: rest else (k', v') :: setProp k v rest
  end.

(** A literal whose absolute value is at most 2^-1075 rounds to zero
    in binary64 (ties go to the even neighbour, which is zero). *)
Definition roundsToZero (q : Q) : bool :=
  Qle_bool (Qabs q) (1 # (2 ^ 1075)).

(** ECMAScript [ToBoolean]. *)
Definition toBoolean (v : JSValue) : bool :=
  match v with
  | VUndefined | VNull => false
  | VBool b => b
  | VNumber q => negb (roundsToZero q)
  | VString s => match s with [] => false | _ => true end
  | VArray _ | VObject _ => true
  end.

End Value.
Export Value.

(** ** [JSON.parse]

    A recursive-descent parser of the JSON grammar of ECMA-404, which is
    the grammar [JSON.parse] accepts.  Nested values recurse on [fuel];
    [JSON_parse] gives it more than twice as much fuel as the text has
    characters, which is always enough ([JSON_parse_fuel]). *)

Module Json.

Inductive PResult : Type :=
| POk (v : JSValue) (rest : JSString)
| PSyntaxError
| POutOfFuel.

Definition isJsonSpace (c : CodeUnit) : bool :=
  (c =? 9) || (c =? 10) || (c =? 13) || (c =? 32).

Fixpoint skipWs (s : JSString) : JSString :=
  match s with
  | c :: s' => if isJsonSpace c then skipWs s' else s
  | [] => []
  end.

Definition isDigit (c : CodeUnit) : bool := (48 <=? c) && (c <=? 57).

Definition hexValue (c : CodeUnit) : option N :=
  if (48 <=? c) && (c <=? 57) then Some (c - 48)
  else if (65 <=? c) && (c <=? 70) then Some (c - 55)
  else if (97 <=? c) && (c <=? 102) then Some (c - 87)
  else None.

Definition hex4 (a b c d : CodeUnit) : option CodeUnit :=
  match hexValue a, hexValue b, hexValue c, hexValue d with
  | Some x, Some y, Some z, Some w => Some (((x * 16 + y) * 16 + z) * 16 + w)
  | _, _, _, _ => None
  end.

(** The character a one-letter escape stands for. *)
Definition escapeChar (e : CodeUnit) : option CodeUnit :=
  if e =? 34 then Some 34          (* quote *)
  else if e =? 92 then Some 92     (* backslash *)
  else if e =? 47 then Some 47     (* slash *)
  else if e =? 98 then Some 8      (* b: backspace *)
  else if e =? 102 then Some 12    (* f: form feed *)
  else if e =? 110 then Some 10    (* n: line feed *)
  else if e =? 114 then Some 13    (* r: carriage return *)
  else if e =? 116 then Some 9     (* t: tab *)
  else None.

Definition consStr (c : CodeUnit) (r : option (JSString * JSString))
  : option (JSString * JSString) :=
  match r with
  | Some (m, rest) => Some (c :: m, rest)
  | None => None
  end.

(** The characters of a string literal after its opening quote, up to
    the closing quote; the value of the literal and what follows it. *)
Fixpoint parseStringBody (s : JSString) : option (JSString * JSString) :=
  match s with
  | [] => None
  | c :: s' =>
      if c =? dquote then Some ([], s')
      else if c =? backslash then
        match s' with
        | [] => None
        | e :: s'' =>
            if e =? 117 then
              match s'' with
              | h1 :: h2 :: h3 :: h4 :: s3 =>
                  match hex4 h1 h2 h3 h4 with
                  | Some u => consStr u (parseStringBody s3)
                  | None => None
                  end
              | _ => None
              end
            else
              match escapeChar e with
              | Some u => consStr u (parseStringBody s'')
              | None => None
              end
        end
      else if c <? 32 then None
      else consStr c (parseStringBody s')
  end.

(** The longest prefix of digits, as the list of their values. *)
Fixpoint takeDigits (s : JSString) : list N * JSString :=
  match s with
  | c :: s' =>
      if isDigit c then
        let '(ds, rest) := takeDigits s' in (c - 48 :: ds, rest)
      else ([], s)
  | [] => ([], [])
  end.

Definition digitsValue (ds : list N) : N :=
  fold_left (fun acc d => acc * 10 + d) ds 0.

(** mantissa * 10^exponent, in lowest terms. *)
Definition decimal (neg : bool) (mantissa : N) (exponent : Z) : Q :=
  let m := if neg then Z.opp (Z.of_N mantissa) else Z.of_N mantissa in
  Qred (if (0 <=? exponent)%Z
        then (m * 10 ^ exponent)%Z # 1
        else m # Z.to_pos (10 ^ (- exponent))%Z).

(** int: [0] or a non-zero digit and more digits. *)
Definition parseInt (s : JSString) : option (list N * JSString) :=
  match s with
  | c :: s' =>
      if c =? 48 then Some ([0], s')
      else if isDigit c then Some (takeDigits s)
      else None
  | [] => None
  end.

(** frac: nothing, or [.] and at least one digit. *)
Definition parseFrac (s : JSString) : option (list N * JSString) :=
  match s with
  | c :: s' =>
      if c =? 46 then
        match takeDigits s' with
        | ([], _) => None
        | r => Some r
        end
      else Some ([], s)
  | [] => Some ([], [])
  end.

(** exp: nothing, or [e] or [E], a sign or none, and at least one digit. *)
Definition parseExp (s : JSString) : option (Z * JSString) :=
  match s with
  | c :: s' =>
      if (c =? 101) || (c =? 69) then
        let '(neg, s'') :=
          match s' with
          | sg :: t =>
              if sg =? 45 then (true, t)
              else if sg =? 43 then (false, t)
              else (false, s')
          | [] => (false, s')
          end in
        match takeDigits s'' with
        | ([], _) => None
        | (ds, rest) =>
            let e := Z.of_N (digitsValue ds) in
            Some (if neg then Z.opp e else e, rest)
        end
      else Some (0%Z, s)
  | [] => Some (0%Z, [])
  end.

Definition parseNumber (s : JSString) : option (Q * JSString) :=
  let '(neg, s0) :=
    match s with
    | c :: s' => if c =? 45 then (true, s') else (false, s)
    | [] => (false, s)
    end in
  match parseInt s0 with
  | None => None
  | Some (ids, s1) =>
      match parseFrac s1 with
      | None => None
      | Some (fds, s2) =>
          match parseExp s2 with
          | None => None
          | Some (e, s3) =>
              Some (decimal neg (digitsValue (ids ++ fds))
                      (e - Z.of_nat (List.length fds)), s3)
          end
      end
  end.

Fixpoint stripPrefix (p s : JSString) : option JSString :=
  match p, s with
  | [], _ => Some s
  | x :: p', y :: s' => if x =? y then stripPrefix p' s' else None
  | _ :: _, [] => None
  end.

Definition parseLiteral (s : JSString) : PResult :=
  match stripPrefix (str "true") s with
  | Some rest => POk (VBool true) rest
  | None =>
      match stripPrefix (str "false") s with
      | Some rest => POk (VBool false) rest
      | None =>
          match stripPrefix (str "null") s with
          | Some rest => POk VNull rest
          | None => PSyntaxError
          end
      end
  end.

Fixpoint parseValue (fuel : nat) (s : JSString) : PResult :=
  match fuel with
  | O => POutOfFuel
  | S f =>
      match skipWs s with
      | [] => PSyntaxError
      | c :: s1 =>
          if c =? lbrace then
            match skipWs s1 with
            | [] => PSyntaxError
            | c2 :: s2 =>
                if c2 =? rbrace then POk (VObject []) s2
                else parseMembers f [] s1
            end
          else if c =? lbracket then
            match skipWs s1 with
            | [] => PSyntaxError
            | c2 :: s2 =>
                if c2 =? rbracket then POk (VArray []) s2
                else parseElements f [] s1
            end
          else if c =? dquote then
            match parseStringBody s1 with
            | Some (v, rest) => POk (VString v) rest
            | None => PSyntaxError
            end
          else if (c =? 45) || isDigit c then
            match parseNumber (c :: s1) with
            | Some (q, rest) => POk (VNumber q) rest
            | None => PSyntaxError
            end
          else parseLiteral (c :: s1)
      end
  end

with parseMembers (fuel : nat) (acc : list (JSString * JSValue))
  (s : JSString) : PResult :=
  match fuel with
  | O => POutOfFuel
  | S f =>
      match skipWs s with
      | [] => PSyntaxError
      | c :: s1 =>
          if c =? dquote then
            match parseStringBody s1 with
            | None => PSyntaxError
            | Some (k, s2) =>
                match skipWs s2 with
                | [] => PSyntaxError
                | c3 :: s3 =>
                    if c3 =? colon then
                      match parseValue f s3 with
                      | POk v s4 =>
                          match skipWs s4 with
                          | [] => PSyntaxError
                          | c5 :: s5 =>
                              if c5 =? comma
                              then parseMembers f (setProp k v acc) s5
                              else if c5 =? rbrace
                              then POk (VObject (setProp k v acc)) s5
                              else PSyntaxError
                          end
                      | e => e
                      end
                    else PSyntaxError
                end
            end
          else PSyntaxError
      end
  end

with parseElements (fuel : nat) (acc : list JSValue) (s : JSString)
  : PResult :=
  match fuel with
  | O => POutOfFuel
  | S f =>
      match parseValue f s with
      | POk v s1 =>
          match skipWs s1 with
          | [] => PSyntaxError
          | c2 :: s2 =>
              if c2 =? comma then parseElements f (acc ++ [v]) s2
              else if c2 =? rbracket then POk (VArray (acc ++ [v])) s2
              else PSyntaxError
          end
      | e => e
      end
  end.

(** [JSON.parse(text)] without a reviver: [Some] the value, or [None]
    where [JSON.parse] throws a [SyntaxError]. *)
Definition JSON_parse (text : JSString) : option JSValue :=
  match parseValue (S (2 * List.length text)) text with
  | POk v rest =>
      match skipWs rest with
      | [] => Some v
      | _ :: _ => None
      end
  | _ => None
  end.

End Json.
Export Json.

(** ** Completions

    A JavaScript evaluation ends normally with a value or abruptly with
    a thrown value.  [ErrorInstance] is a thrown object for which
    [err instanceof Error] holds, with its [message]. *)

Module Completions.

Inductive Thrown : Type :=
| ErrorInstance (ctor : JSString) (message : JSString)
| NotAnError (v : JSValue).

Inductive Completion (A : Type) : Type :=
| Normal (a : A)
| Throw (t : Thrown).

Arguments Normal {A} a.
Arguments Throw {A} t.

End Completions.
Export Completions.

(** ** [extractAndParseJSON] *)

Module Normalizer.

Definition notFoundError : Thrown :=
  ErrorInstance (str "Error") (str "JSON object not found.").

(** Lines 10 to 13: the match, or the thrown error. *)
Definition extractCandidate (text : JSString) : Completion JSString :=
  match stringMatch reObject text with
  | None => Throw notFoundError
  | Some jsonMatch0 => Normal jsonMatch0
  end.

(** Line 16. *)
Definition stripLineComments (s : JSString) : JSString :=
  replaceAll reLineComment [] s.

(** Lines 15 to 18: the three replacements, in order. *)
Definition repair (candidate : JSString) : JSString :=
  replaceAll reCommaBracket [rbracket]
    (replaceAll reCommaBrace [rbrace]
       (stripLineComments candidate)).

(** Lines 20 to 25: [JSON.parse] inside [try], [null] from [catch]. *)
Definition parseStep (cleaned : JSString) : Completion JSValue :=
  match JSON_parse cleaned with
  | Some v => Normal v
  | None => Normal VNull
  end.

Definition extractAndParseJSON (text : JSString) : Completion JSValue :=
  match extractCandidate text with
  | Throw t => Throw t
  | Normal jsonMatch0 => parseStep (repair jsonMatch0)
  end.

End Normalizer.
Export Normalizer.

(** ** The records of [../types] *)

Module Material.
Record t : Type := mk {
  id : JSValue;
  name : JSValue;
  unit : JSValue;
  costPerUnit : JSValue;
  quantity : JSValue;
  description : JSValue
}.
End Material.

Module LaborItem.
Record t : Type := mk {
  id : JSValue;
  role : JSValue;
  costPerHour : JSValue;
  hours : JSValue;
  description : JSValue
}.
End LaborItem.

Module ProjectDetails.
Record t : Type := mk {
  projectName : JSValue;
  length : JSValue;
  width : JSValue;
  height : JSValue;
  materials : list Material.t;
  labor : list LaborItem.t
}.
End ProjectDetails.

(** ** The analysis flow

    What the engine and the browser provide is gathered in [Host]: the
    identifiers [crypto.randomUUID] returns, call after call, and the
    wording of the [TypeError]s of the engine, which ECMAScript leaves
    open. *)

Module Flow.

Record Host : Type := {
  uuidAt : nat -> JSString;
  nullishReadMessage : JSValue -> JSString -> JSString;
  notAFunctionMessage : JSString -> JSString
}.

(** The state of the component, the calls made to
    [onEstimationComplete] so far, and the number of identifiers drawn
    from [crypto.randomUUID]. *)
Record State : Type := {
  isLoading : bool;
  error : JSString;
  estimation : option ProjectDetails.t;
  calls : list ProjectDetails.t;
  uuidCalls : nat
}.

Definition M (A : Type) : Type := State -> Completion A * State.

Definition ret {A} (a : A) : M A := fun st => (Normal a, st).

Definition bind {A B} (m : M A) (k : A -> M B) : M B :=
  fun st =>
    match m st with
    | (Normal a, st') => k a st'
    | (Throw t, st') => (Throw t, st')
    end.

Definition lift {A} (c : Completion A) : M A := fun st => (c, st).

(** [try { body } catch (err) { handler err }] *)
Definition tryCatch {A} (body : M A) (handler : Thrown -> M A) : M A :=
  fun st =>
    match body st with
    | (Normal a, st') => (Normal a, st')
    | (Throw t, st') => handler t st'
    end.

(** [try { body } finally { fin }], for a [fin] that ends normally. *)
Definition andFinally {A} (body : M A) (fin : State -> State) : M A :=
  fun st => let '(r, st') := body st in (r, fin st').

Declare Scope flow_scope.
Delimit Scope flow_scope with flow.
Notation "x <- m ;; k" := (bind m (fun x => k))
  (at level 61, m at next level, right associativity) : flow_scope.
Notation "m ;;; k" := (bind m (fun _ => k))
  (at level 61, right associativity) : flow_scope.
Local Open Scope flow_scope.

Definition setIsLoading (b : bool) : M unit :=
  fun st => (Normal tt,
    {| isLoading := b; error := error st; estimation := estimation st;
       calls := calls st; uuidCalls := uuidCalls st |}).

Definition setError (e : JSString) : M unit :=
  fun st => (Normal tt,
    {| isLoading := isLoading st; error := e; estimation := estimation st;
       calls := calls st; uuidCalls := uuidCalls st |}).

Definition setEstimation (e : option ProjectDetails.t) : M unit :=
  fun st => (Normal tt,
    {| isLoading := isLoading st; error := error st; estimation := e;
       calls := calls st; uuidCalls := uuidCalls st |}).

Definition recordCall (d : ProjectDetails.t) : M unit :=
  fun st => (Normal tt,
    {| isLoading := isLoading st; error := error st;
       estimation := estimation st;
       calls := calls st ++ [d]; uuidCalls := uuidCalls st |}).

Definition typeError (message : JSString) : Thrown :=
  ErrorInstance (str "TypeError") message.

Definition fallbackMessage : JSString :=
  str "Failed to analyze project. Please try again.".

Section WithHost.

Variable host : Host.

(** [crypto.randomUUID()] *)
Definition randomUUID : M JSValue :=
  fun st => (Normal (VString (uuidAt host (uuidCalls st))),
    {| isLoading := isLoading st; error := error st;
       estimation := estimation st;
       calls := calls st; uuidCalls := S (uuidCalls st) |}).

(** [base.key], for the property names the flow reads.  None of them is
    defined on the prototypes of objects, arrays, strings, numbers or
    booleans, save [length] on arrays and strings. *)
Definition getProp (base : JSValue) (key : JSString) : Completion JSValue :=
  match base with
  | VUndefined | VNull => Throw (typeError (nullishReadMessage host base key))
  | VObject props =>
      match lookupProp key props with
      | Some v => Normal v
      | None => Normal VUndefined
      end
  | VString s =>
      if eqs key (str "length")
      then Normal (ofN (N.of_nat (List.length s)))
      else Normal VUndefined
  | VArray items =>
      if eqs key (str "length")
      then Normal (ofN (N.of_nat (List.length items)))
      else Normal VUndefined
  | VBool _ | VNumber _ => Normal VUndefined
  end.

(** [a || b], with [b] evaluated only when [a] is falsy. *)
Definition orElse (a : JSValue) (b : M JSValue) : M JSValue :=
  if toBoolean a then ret a else b.

Fixpoint mapM {A B} (f : A -> M B) (l : list A) : M (list B) :=
  match l with
  | [] => ret []
  | x :: l' => y <- f x ;; ys <- mapM f l' ;; ret (y :: ys)
  end.

(** [base.map(f)]: only an array has a callable [map]. *)
Definition callMap {B} (what : JSString) (base : JSValue)
  (f : JSValue -> M B) : M (list B) :=
  match base with
  | VUndefined | VNull =>
      lift (Throw (typeError (nullishReadMessage host base (str "map"))))
  | VArray items => mapM f items
  | _ => lift (Throw (typeError (notAFunctionMessage host what)))
  end.

(** Lines 97 to 104. *)
Definition mapMaterial (m : JSValue) : M Material.t :=
  materialId <- lift (getProp m (str "materialId")) ;;
  id <- orElse materialId randomUUID ;;
  name <- lift (getProp m (str "name")) ;;
  name <- orElse name (ret (VString (str "Material"))) ;;
  unit <- lift (getProp m (str "unit")) ;;
  unit <- orElse unit (ret (VString (str "unit"))) ;;
  costPerUnit <- lift (getProp m (str "costPerUnit")) ;;
  costPerUnit <- orElse costPerUnit (ret (ofN 0)) ;;
  quantity <- lift (getProp m (str "quantity")) ;;
  description <- lift (getProp m (str "description")) ;;
  description <- orElse description (ret (VString [])) ;;
  ret (Material.mk id name unit costPerUnit quantity description).

(** Lines 105 to 111. *)
Definition mapLabor (l : JSValue) : M LaborItem.t :=
  laborId <- lift (getProp l (str "laborId")) ;;
  id <- orElse laborId randomUUID ;;
  role <- lift (getProp l (str "role")) ;;
  role <- orElse role (ret (VString (str "Labor"))) ;;
  costPerHour <- lift (getProp l (str "costPerHour")) ;;
  costPerHour <- orElse costPerHour (ret (ofN 0)) ;;
  hours <- lift (getProp l (str "hours")) ;;
  description <- lift (getProp l (str "description")) ;;
  description <- orElse description (ret (VString [])) ;;
  ret (LaborItem.mk id role costPerHour hours description).

(** Lines 92 to 112. *)
Definition transform (parsedEstimation : JSValue) : M ProjectDetails.t :=
  projectName <- lift (getProp parsedEstimation (str "projectName")) ;;
  length <- lift (getProp parsedEstimation (str "length")) ;;
  width <- lift (getProp parsedEstimation (str "width")) ;;
  height <- lift (getProp parsedEstimation (str "height")) ;;
  ms <- lift (getProp parsedEstimation (str "materials")) ;;
  materials <- callMap (str "parsedEstimation.materials.map") ms mapMaterial ;;
  ls <- lift (getProp parsedEstimation (str "labor")) ;;
  labor <- callMap (str "parsedEstimation.labor.map") ls mapLabor ;;
  ret (ProjectDetails.mk projectName length width height materials labor).

(** Lines 89 to 112: from the text of the model to the record. *)
Definition normalize (text : JSString) : M ProjectDetails.t :=
  parsedEstimation <- lift (extractAndParseJSON text) ;;
  transform parsedEstimation.

(** Line 117. *)
Definition errorText (err : Thrown) : JSString :=
  match err with
  | ErrorInstance _ message => message
  | NotAnError _ => fallbackMessage
  end.

(** Lines 33 to 122.  [response] is how the two awaits of lines 85 and
    86 end: with the text of the model, or with what the service
    throws.  [onEstimationComplete] is the callback of the caller, which
    may itself throw. *)
Definition analyzeProject
  (onEstimationComplete : ProjectDetails.t -> Completion unit)
  (response : Completion JSString) : M unit :=
  setIsLoading true ;;;
  setError [] ;;;
  setEstimation None ;;;
  andFinally
    (tryCatch
       (text <- lift response ;;
        transformedEstimation <- normalize text ;;
        setEstimation (Some transformedEstimation) ;;;
        recordCall transformedEstimation ;;;
        lift (onEstimationComplete transformedEstimation))
       (fun err => setError (errorText err)))
    (fun st =>
       {| isLoading := false; error := error st;
          estimation := estimation st;
          calls := calls st; uuidCalls := uuidCalls st |}).

End WithHost.

End Flow.
Export Flow.

(** ** The extraction rule in the words of the specification

    "Find the first [{] and the last [}] in the text and treat
    everything between (inclusive) as the candidate object."  This is
    the second definition the matcher of the source is compared with. *)

Module ExtractionRule.

Fixpoint indexOf (c : CodeUnit) (s : JSString) : option nat :=
  match s with
  | [] => None
  | x :: s' => if x =? c then Some O else option_map S (indexOf c s')
  end.

Fixpoint lastIndexOf (c : CodeUnit) (s : JSString) : option nat :=
  match s with
  | [] => None
  | x :: s' =>
      match lastIndexOf c s' with
      | Some j => Some (S j)
      | None => if x =? c then Some O else None
      end
  end.

(** [s.slice(i, j)] for [i <= j]. *)
Definition slice (i j : nat) (s : JSString) : JSString :=
  firstn (j - i) (skipn i s).

Definition spanFirstToLast (text : JSString) : option JSString :=
  match indexOf lbrace text, lastIndexOf rbrace text with
  | Some i, Some j =>
      if Nat.ltb i j then Some (slice i (S j) text) else None
  | _, _ => None
  end.

(** The text has a [{] with a [}] somewhere after it. *)
Definition hasSpan (text : JSString) : Prop :=
  exists a b c, text = a ++ lbrace :: b ++ rbrace :: c.

(** A balanced span: it opens with [{], every [{] is closed by a later
    [}], and the span ends where the first [{] is closed. *)
Fixpoint balancedFrom (depth : nat) (s : JSString) : bool :=
  match s with
  | [] => false
  | c :: s' =>
      if c =? lbrace then balancedFrom (S depth) s'
      else if c =? rbrace then
        match depth with
        | O => false
        | S O => match s' with [] => true | _ :: _ => false end
        | S d => balancedFrom d s'
        end
      else
        match depth with
        | O => false
        | S _ => balancedFrom depth s'
        end
  end.

Definition balanced (s : JSString) : bool := balancedFrom O s.

Definition hasChar (c : CodeUnit) (s : JSString) : bool :=
  existsb (fun x => x =? c) s.

(** Every balanced span of a text, as (start, length). *)
Definition balancedSpans (text : JSString) : list (nat * nat) :=
  filter (fun p => balanced (slice (fst p) (fst p + snd p) text))
    (flat_map
       (fun i => map (fun n => (i, S n)) (seq O (List.length text - i)))
       (seq O (List.length text))).

End ExtractionRule.
Export ExtractionRule.

(** ** The output schema of the prompt, and how identifiers are drawn *)

Module Schema.

(** Lines 58 to 65 of the prompt: the fields of a material. *)
Definition materialSchema : list JSString :=
  [str "id"; str "name"; str "unit"; str "costPerUnit"; str "quantity";
   str "description"].

(** Lines 68 to 74 of the prompt: the fields of a labor item. *)
Definition laborSchema : list JSString :=
  [str "id"; str "role"; str "costPerHour"; str "hours"; str "description"].

(** An object all of whose keys belong to the schema. *)
Definition conformsTo (schema : list JSString) (v : JSValue) : bool :=
  match v with
  | VObject props =>
      forallb (fun kv => existsb (eqs (fst kv)) schema) props
  | _ => false
  end.

(** An object on which the lookup of [key] finds nothing to use: the
    key is absent, or its value is falsy. *)
Definition lacks (key : JSString) (v : JSValue) : bool :=
  match v with
  | VObject props =>
      match lookupProp key props with
      | Some x => negb (toBoolean x)
      | None => true
      end
  | _ => false
  end.

(** The value of [base.key] on an object with the properties [props]. *)
Definition own (props : list (JSString * JSValue)) (key : JSString)
  : JSValue :=
  match lookupProp key props with
  | Some v => v
  | None => VUndefined
  end.

(** [v || d] for a [d] without effects. *)
Definition pick (v d : JSValue) : JSValue := if toBoolean v then v else d.

(** The material lines 98 to 103 build from an object, given its id. *)
Definition materialOf (id : JSValue) (props : list (JSString * JSValue))
  : Material.t :=
  Material.mk id
    (pick (own props (str "name")) (VString (str "Material")))
    (pick (own props (str "unit")) (VString (str "unit")))
    (pick (own props (str "costPerUnit")) (ofN 0))
    (own props (str "quantity"))
    (pick (own props (str "description")) (VString [])).

(** The labor item lines 106 to 110 build from an object, given its id. *)
Definition laborOf (id : JSValue) (props : list (JSString * JSValue))
  : LaborItem.t :=
  LaborItem.mk id
    (pick (own props (str "role")) (VString (str "Labor")))
    (pick (own props (str "costPerHour")) (ofN 0))
    (own props (str "hours"))
    (pick (own props (str "description")) (VString [])).

(** The identifier the generator returns in the state [st]. *)
Definition nextId (host : Host) (st : State) : JSValue :=
  VString (uuidAt host (uuidCalls st)).

(** The generator never returns the same identifier twice, and no
    identifier is the empty string. *)
Definition FreshIds (host : Host) : Prop :=
  (forall i j, uuidAt host i = uuidAt host j -> i = j) /\
  (forall i, uuidAt host i <> []).

(** The state after [n] more identifiers have been drawn. *)
Definition drawn (n : nat) (st : State) : State :=
  {| isLoading := isLoading st; error := error st;
     estimation := estimation st; calls := calls st;
     uuidCalls := n + uuidCalls st |}.

(** A computation that only draws identifiers: it leaves the state of
    the component and the calls to the callback as they are. *)
Definition Draws {A : Type} (m : M A) : Prop :=
  forall st, exists n, snd (m st) = drawn n st.

(** The state after line 36. *)
Definition started (st : State) : State :=
  {| isLoading := true; error := []; estimation := None;
     calls := calls st; uuidCalls := uuidCalls st |}.

(** Lines 85 to 112, from the awaited response to the record. *)
Definition estimate (host : Host) (response : Completion JSString)
  : M ProjectDetails.t :=
  bind (lift response) (normalize host).

(** No [//] starts inside the text, and the text does not end with a
    [/] that could start one with what follows. *)
Fixpoint noLineComment (s : JSString) : bool :=
  match s with
  | [] => true
  | c :: s' =>
      if c =? slash then
        match s' with
        | [] => false
        | d :: _ => negb (d =? slash) && noLineComment s'
        end
      else noLineComment s'
  end.

End Schema.
Export Schema.

(** ** Inputs of the examples *)

Module Examples.

(** A host with the wording of V8 and identifiers told apart by their
    length. *)
Definition exampleHost : Host :=
  {| uuidAt := fun n => str "uuid-" ++ repeat 120 n;
     nullishReadMessage := fun base key =>
       str "Cannot read properties of "
       ++ (match base with VNull => str "null" | _ => str "undefined" end)
       ++ str " (reading '" ++ key ++ str "')";
     notAFunctionMessage := fun what => what ++ str " is not a function" |}.

Definition idle : State :=
  {| isLoading := false; error := []; estimation := None;
     calls := []; uuidCalls := O |}.

(** [{quantity: 5}] *)
Definition quantityOnly : JSValue := VObject [(str "quantity", ofN 5)].

(** An object with an unterminated string. *)
Definition unterminated : JSString :=
  str "{" ++ quoted "a" ++ str ": " ++ [dquote] ++ str "abc}".

Definition malformedAnswer : JSString := str "Sure: " ++ unterminated.

(** A balanced span and prose with a [}] of its own after it. *)
Definition smileySpan : JSString := str "{" ++ quoted "a" ++ str ":1}".
Definition smileyBefore : JSString := str "Result: ".
Definition smileyAfter : JSString := str " Hope this helps :-}".
Definition smileyText : JSString := smileyBefore ++ smileySpan ++ smileyAfter.

(** The candidate of the repair example, with a line feed after the
    comment. *)
Definition commented : JSString :=
  str "{" ++ quoted "a" ++ str ": 1, // comment" ++ [LF] ++ str " "
  ++ quoted "b" ++ str ": 2,}".
Definition commentedRepaired : JSString :=
  str "{" ++ quoted "a" ++ str ": 1, " ++ [LF] ++ str " "
  ++ quoted "b" ++ str ": 2}".
Definition compact : JSString :=
  str "{" ++ quoted "a" ++ str ":1," ++ quoted "b" ++ str ":2}".
Definition compactValue : JSValue :=
  VObject [(str "a", ofN 1); (str "b", ofN 2)].

(** Valid JSON with [//] inside a string. *)
Definition urlBefore : JSString :=
  str "{" ++ quoted "description" ++ str ":" ++ [dquote] ++ str "see http:".
Definition urlLine : JSString :=
  str "example.com/wood" ++ [dquote] ++ str "}".
Definition urlCandidate : JSString := urlBefore ++ slash :: slash :: urlLine.
Definition urlValue : JSValue :=
  VObject [(str "description", VString (str "see http://example.com/wood"))].

(** Valid JSON with [//] and then a line separator inside a string. *)
Definition separatorCandidate : JSString :=
  str "{" ++ quoted "description" ++ str ":" ++ [dquote] ++ str "a//b"
  ++ [LS] ++ str "c" ++ [dquote] ++ str "}".
Definition separatorValue : JSValue :=
  VObject [(str "description", VString (str "a//b" ++ [LS] ++ str "c"))].
Definition separatorRepairedValue : JSValue :=
  VObject [(str "description", VString (str "a" ++ [LS] ++ str "c"))].

(** Two materials with no [id] and one [materialId]. *)
Definition twins : list JSValue :=
  [VObject [(str "materialId", VString (str "m1"))];
   VObject [(str "materialId", VString (str "m1"))]].

(** The answer of the end-to-end example of the specification. *)
Definition field (k : string) (v : JSString) : JSString :=
  quoted k ++ str ":" ++ v.
Definition shedAnswer : JSString :=
  str "Here you go: {"
  ++ field "projectName" (quoted "Shed") ++ str ","
  ++ field "length" (str "3") ++ str ","
  ++ field "width" (str "2") ++ str ","
  ++ field "height" (str "2.4") ++ str ","
  ++ field "materials"
       (str "[{" ++ field "name" (quoted "Plywood") ++ str ","
        ++ field "unit" (quoted "sheet") ++ str ","
        ++ field "costPerUnit" (str "25") ++ str ","
        ++ field "quantity" (str "10") ++ str "}]") ++ str ","
  ++ field "labor"
       (str "[{" ++ field "role" (quoted "Carpenter") ++ str ","
        ++ field "costPerHour" (str "40") ++ str ","
        ++ field "hours" (str "8") ++ str "}]")
  ++ str "}".
Definition shedDetails : ProjectDetails.t :=
  ProjectDetails.mk (VString (str "Shed")) (ofN 3) (ofN 2) (VNumber (12 # 5))
    [Material.mk (VString (uuidAt exampleHost 0)) (VString (str "Plywood"))
       (VString (str "sheet")) (ofN 25) (ofN 10) (VString [])]
    [LaborItem.mk (VString (uuidAt exampleHost 1)) (VString (str "Carpenter"))
       (ofN 40) (ofN 8) (VString [])].

End Examples.
Export Examples.

(** ** The rest of the component: the trigger and the rendered fields *)

Module View.

(** [String.prototype.trim]: white space and line terminators are
    taken off both ends; they are the characters of [\s]. *)
Fixpoint trimStart (s : JSString) : JSString :=
  match s with
  | c :: s' => if isRegexSpace c then trimStart s' else s
  | [] => []
  end.

Definition trimEnd (s : JSString) : JSString := rev (trimStart (rev s)).

Definition trim (s : JSString) : JSString := trimEnd (trimStart s).

(** Line 144: [disabled={isLoading || !projectDescription.trim()}]. *)
Definition analysisDisabled (loading : bool) (projectDescription : JSString)
  : bool :=
  loading || negb (toBoolean (VString (trim projectDescription))).

Definition noDescription : JSValue :=
  VString (str "No description provided").

(** Lines 200 and 222: the value of the expression
    [description || 'No description provided'], which is handed to
    React as the child of the paragraph.  What React draws for that
    value is not part of this definition. *)
Definition descriptionOrPlaceholder (description : JSValue) : JSValue :=
  pick description noDescription.

(** Lines 203 and 226: [cost.toFixed(2)].  Only a number has a callable
    [toFixed]; [toFixed2] is the text [Number.prototype.toFixed] gives
    for two digits, which is left open. *)
Definition costLabel (host : Host) (toFixed2 : Q -> JSString)
  (what : JSString) (cost : JSValue) : Completion JSString :=
  match cost with
  | VUndefined | VNull =>
      Throw (typeError (nullishReadMessage host cost (str "toFixed")))
  | VNumber q => Normal (toFixed2 q)
  | _ => Throw (typeError (notAFunctionMessage host what))
  end.

End View.
Export View.

(** ** Notions the properties are stated with *)

Module Notions.

(** [a] is [b] with some characters deleted. *)
Inductive Subseq : JSString -> JSString -> Prop :=
| Subseq_nil : Subseq [] []
| Subseq_drop (x : CodeUnit) (a b : JSString) :
    Subseq a b -> Subseq a (x :: b)
| Subseq_keep (x : CodeUnit) (a b : JSString) :
    Subseq a b -> Subseq (x :: a) (x :: b).

(** No two slashes in a row. *)
Fixpoint noDoubleSlash (s : JSString) : bool :=
  match s with
  | [] => true
  | c :: s' =>
      match s' with
      | d :: _ => negb ((c =? slash) && (d =? slash)) && noDoubleSlash s'
      | [] => true
      end
  end.

Definition isNullish (v : JSValue) : bool :=
  match v with
  | VUndefined | VNull => true
  | _ => false
  end.

(** The own properties the mapping can read on a value that is not
    nullish: those of an object, and none on anything else. *)
Definition propsOf (v : JSValue) : list (JSString * JSValue) :=
  match v with
  | VObject props => props
  | _ => []
  end.

(** An array none of whose items is [null] or [undefined]. *)
Definition mappable (v : JSValue) : bool :=
  match v with
  | VArray items => forallb (fun m => negb (isNullish m)) items
  | _ => false
  end.

(** An object whose [materials] and [labor] are such arrays. *)
Definition transformable (v : JSValue) : bool :=
  match v with
  | VObject props =>
      mappable (own props (str "materials"))
      && mappable (own props (str "labor"))
  | _ => false
  end.

(** The item has nothing the mapping can use as its id under [key]. *)
Definition needsId (key : JSString) (m : JSValue) : bool :=
  negb (toBoolean (own (propsOf m) key)).

Definition isNumber (v : JSValue) : bool :=
  match v with
  | VNumber _ => true
  | _ => false
  end.

End Notions.
Export Notions.

(** ** Inputs of further examples *)

Module MoreExamples.

(** A parsed answer with one material and no labor. *)
Definition oneMaterial : JSValue :=
  VObject [(str "projectName", VString (str "Shed"));
           (str "materials", VArray [quantityOnly]);
           (str "labor", VArray [])].

Definition oneMaterialDetails : ProjectDetails.t :=
  ProjectDetails.mk (VString (str "Shed")) VUndefined VUndefined VUndefined
    [materialOf (nextId exampleHost idle) [(str "quantity", ofN 5)]] [].

(** Items that bring a [materialId] and a [laborId] of their own. *)
Definition suppliedMaterialId : JSValue :=
  VObject [(str "materialId", VString (str "m1"));
           (str "name", VString (str "Plywood"))].
Definition suppliedLaborId : JSValue :=
  VObject [(str "laborId", VString (str "l1"));
           (str "role", VString (str "Carpenter"))].

(** A material of the schema of the prompt, with its [id]. *)
Definition schemaMaterial : JSValue :=
  VObject [(str "id", VString (str "m-1"));
           (str "name", VString (str "Plywood"))].
Definition schemaLabor : JSValue :=
  VObject [(str "id", VString (str "l-1"));
           (str "role", VString (str "Carpenter"))].

(** What the mapping makes of one of the [twins]. *)
Definition twinMapped : Material.t :=
  materialOf (VString (str "m1")) [(str "materialId", VString (str "m1"))].

(** A material with a description. *)
Definition described : JSValue :=
  VObject [(str "description", VString (str "18 mm sheets"))].

(** A material whose cost came as a string. *)
Definition stringCost : JSValue :=
  VObject [(str "name", VString (str "Plywood"));
           (str "costPerUnit", VString (str "25"))].

End MoreExamples.
Export MoreExamples.

(** * Properties *)

(** ** The matcher *)

Section MatcherFacts.

Lemma matchHere_many_cons (p : CodeUnit -> bool) (r : pattern)
  (c : CodeUnit) (s : JSString) :
  matchHere (Many p :: r) (c :: s) =
  if p c then
    match consMatch c (matchHere (Many p :: r) s) with
    | Some x => Some x
    | None => matchHere r (c :: s)
    end
  else matchHere r (c :: s).
Proof. reflexivity. Qed.

Lemma matchHere_one_cons (p : CodeUnit -> bool) (r : pattern)
  (c : CodeUnit) (s : JSString) :
  matchHere (One p :: r) (c :: s) =
  if p c then consMatch c (matchHere r s) else None.
Proof. reflexivity. Qed.

Lemma stringMatch_cons (r : pattern) (c : CodeUnit) (s : JSString) :
  matchHere r (c :: s) = None ->
  stringMatch r (c :: s) = stringMatch r s.
Proof.
  intros H. unfold stringMatch. simpl exec. rewrite H.
  destruct (exec r s) as [[[pre m] rest]|]; reflexivity.
Qed.

Lemma stringMatch_here (r : pattern) (s m rest : JSString) :
  matchHere r s = Some (m, rest) -> stringMatch r s = Some m.
Proof.
  intros H. unfold stringMatch. destruct s; simpl exec; rewrite H; reflexivity.
Qed.

(** The greedy star over every character, followed by [}], stops at the
    last [}]. *)
Lemma star_to_last_rbrace (s : JSString) :
  matchHere [Many anyChar; One (isChar rbrace)] s =
  match lastIndexOf rbrace s with
  | Some j => Some (firstn (S j) s, skipn (S j) s)
  | None => None
  end.
Proof.
  induction s as [|c s IH].
  - reflexivity.
  - rewrite matchHere_many_cons. unfold anyChar at 1. rewrite IH.
    simpl lastIndexOf.
    destruct (lastIndexOf rbrace s) as [j|].
    + reflexivity.
    + simpl consMatch. rewrite matchHere_one_cons. unfold isChar.
      destruct (c =? rbrace); reflexivity.
Qed.

Lemma reObject_here (c : CodeUnit) (s : JSString) :
  matchHere reObject (c :: s) =
  if c =? lbrace then
    match lastIndexOf rbrace s with
    | Some j => Some (c :: firstn (S j) s, skipn (S j) s)
    | None => None
    end
  else None.
Proof.
  unfold reObject. rewrite matchHere_one_cons. unfold isChar at 1.
  destruct (c =? lbrace); [|reflexivity].
  rewrite star_to_last_rbrace.
  destruct (lastIndexOf rbrace s); reflexivity.
Qed.

Lemma stringMatch_no_rbrace (s : JSString) :
  lastIndexOf rbrace s = None -> stringMatch reObject s = None.
Proof.
  induction s as [|c s IH]; intros H.
  - reflexivity.
  - simpl in H. destruct (lastIndexOf rbrace s) as [j|] eqn:E; [discriminate|].
    rewrite stringMatch_cons.
    + apply IH; reflexivity.
    + rewrite reObject_here, E. destruct (c =? lbrace); reflexivity.
Qed.

Lemma stringMatch_reObject (s : JSString) :
  stringMatch reObject s = spanFirstToLast s.
Proof.
  induction s as [|c s IH].
  - reflexivity.
  - unfold spanFirstToLast. simpl indexOf. simpl lastIndexOf.
    destruct (c =? lbrace) eqn:Ec.
    + destruct (lastIndexOf rbrace s) as [j|] eqn:El.
      * erewrite stringMatch_here
          by (rewrite reObject_here, Ec, El; reflexivity).
        reflexivity.
      * assert ((c =? rbrace) = false) as ->.
        { apply N.eqb_eq in Ec. subst c. reflexivity. }
        rewrite stringMatch_cons
          by (rewrite reObject_here, Ec, El; reflexivity).
        apply stringMatch_no_rbrace, El.
    + rewrite stringMatch_cons by (rewrite reObject_here, Ec; reflexivity).
      rewrite IH. unfold spanFirstToLast.
      destruct (indexOf lbrace s) as [i|]; simpl option_map; [|reflexivity].
      destruct (lastIndexOf rbrace s) as [j|].
      * change (Nat.ltb (S i) (S j)) with (Nat.ltb i j).
        destruct (Nat.ltb i j); reflexivity.
      * destruct (c =? rbrace); reflexivity.
Qed.

Lemma lastIndexOf_none (c : CodeUnit) (s : JSString) :
  lastIndexOf c s = None <-> ~ In c s.
Proof.
  induction s as [|x s IH]; simpl.
  - tauto.
  - destruct (lastIndexOf c s) as [j|].
    + split; [discriminate|]. intros H. exfalso. apply H. right.
      destruct (in_dec N.eq_dec c s) as [Hin|Hout]; [exact Hin|].
      apply IH in Hout. discriminate.
    + destruct (N.eqb_spec x c) as [->|Hx].
      * split; [discriminate|]. intros H. exfalso. apply H. left. reflexivity.
      * split; [|reflexivity]. intros _ [E|Hin]; [contradiction|].
        apply (proj1 IH); [reflexivity|exact Hin].
Qed.

Lemma stringMatch_none_iff (s : JSString) :
  stringMatch reObject s = None <-> ~ hasSpan s.
Proof.
  induction s as [|c s IH].
  - split; [|reflexivity]. intros _ [a [b [d E]]].
    destruct a; discriminate.
  - destruct (N.eqb_spec c lbrace) as [->|Hc].
    + destruct (lastIndexOf rbrace s) as [j|] eqn:El.
      * erewrite stringMatch_here
          by (rewrite reObject_here, N.eqb_refl, El; reflexivity).
        split; [discriminate|]. intros H. exfalso. apply H.
        destruct (in_dec N.eq_dec rbrace s) as [Hin|Hout].
        -- apply in_split in Hin as [b [d ->]]. exists [], b, d. reflexivity.
        -- apply lastIndexOf_none in Hout. rewrite Hout in El. discriminate.
      * rewrite stringMatch_cons
          by (rewrite reObject_here, N.eqb_refl, El; reflexivity).
        rewrite (stringMatch_no_rbrace _ El). split; [|reflexivity].
        intros _ [a [b [d E]]]. apply lastIndexOf_none in El. apply El.
        destruct a as [|x a]; simpl in E; injection E as E; subst.
        -- apply in_or_app. right. left. reflexivity.
        -- apply in_or_app. right. right. apply in_or_app. right. left.
           reflexivity.
    + rewrite stringMatch_cons.
      2:{ rewrite reObject_here. apply N.eqb_neq in Hc. rewrite Hc.
          reflexivity. }
      rewrite IH. split; intros H [a [b [d E]]]; apply H.
      * destruct a as [|x a]; simpl in E; injection E as E1 E2.
        -- contradiction.
        -- exists a, b, d. exact E2.
      * exists (c :: a), b, d. rewrite E. reflexivity.
Qed.

End MatcherFacts.

(** ** C1 *)

(** C1: the extraction step returns exactly the substring from the first
    [{] to the last [}] of the raw text, both included, and when there is
    no [{] before a later [}] it throws the error "JSON object not
    found." instead of returning a candidate. *)
Theorem extractCandidate_first_to_last (text : JSString) :
  extractCandidate text =
  match spanFirstToLast text with
  | Some candidate => Normal candidate
  | None => Throw notFoundError
  end.
Proof.
  unfold extractCandidate. rewrite stringMatch_reObject.
  destruct (spanFirstToLast text); reflexivity.
Qed.

(** The extraction step throws exactly when the text has no [{] with a
    [}] after it. *)
Lemma no_candidate_iff_no_span (text : JSString) :
  extractCandidate text = Throw notFoundError <-> ~ hasSpan text.
Proof.
  rewrite <- stringMatch_none_iff. unfold extractCandidate.
  destruct (stringMatch reObject text); split; intros H;
    try reflexivity; discriminate.
Qed.

(** ** C6 *)

Section BalancedSpans.

Lemma balancedFrom_ends (s : JSString) :
  forall d, balancedFrom (S d) s = true ->
  exists mid, s = mid ++ [rbrace].
Proof.
  induction s as [|c s IH]; intros d H.
  - discriminate.
  - simpl in H. destruct (c =? lbrace) eqn:El.
    + destruct (IH _ H) as [mid ->]. exists (c :: mid). reflexivity.
    + destruct (c =? rbrace) eqn:Er.
      * apply N.eqb_eq in Er. subst c. destruct d as [|d].
        -- destruct s; [|discriminate]. exists []. reflexivity.
        -- destruct (IH _ H) as [mid ->]. exists (rbrace :: mid). reflexivity.
      * destruct (IH _ H) as [mid ->]. exists (c :: mid). reflexivity.
Qed.

Lemma balanced_shape (s : JSString) :
  balanced s = true -> exists mid, s = lbrace :: mid ++ [rbrace].
Proof.
  unfold balanced. destruct s as [|c s]; [discriminate|].
  simpl. destruct (c =? lbrace) eqn:El.
  - apply N.eqb_eq in El. subst c. intros H.
    destruct (balancedFrom_ends _ _ H) as [mid ->]. exists mid. reflexivity.
  - destruct (c =? rbrace); discriminate.
Qed.

Lemma lastIndexOf_absent (c : CodeUnit) (s : JSString) :
  hasChar c s = false -> lastIndexOf c s = None.
Proof.
  induction s as [|x s IH]; [reflexivity|].
  unfold hasChar. simpl. intros H. apply orb_false_iff in H as [Hx Hs].
  rewrite (IH Hs), Hx. reflexivity.
Qed.

Lemma lastIndexOf_before (c : CodeUnit) (xs post : JSString) :
  hasChar c post = false ->
  lastIndexOf c (xs ++ c :: post) = Some (List.length xs).
Proof.
  intros H. induction xs as [|x xs IH].
  - simpl. rewrite (lastIndexOf_absent _ _ H), N.eqb_refl. reflexivity.
  - simpl. rewrite IH. reflexivity.
Qed.

Lemma stringMatch_skips_prose (pre s : JSString) :
  hasChar lbrace pre = false ->
  stringMatch reObject (pre ++ s) = stringMatch reObject s.
Proof.
  induction pre as [|c pre IH]; [reflexivity|].
  unfold hasChar. simpl. intros H. apply orb_false_iff in H as [Hc Hp].
  rewrite stringMatch_cons by (rewrite reObject_here, Hc; reflexivity).
  apply IH, Hp.
Qed.

End BalancedSpans.

(** C6, as the specification states it, fails: the text [smileyText] has
    exactly one balanced span, [smileySpan], between two stretches of
    prose, and the candidate runs on to the [}] of the prose. *)
Lemma candidate_runs_past_balanced_span :
  smileyText = smileyBefore ++ smileySpan ++ smileyAfter /\
  balanced smileySpan = true /\
  balancedSpans smileyText = [(8, 7)]%nat /\
  extractCandidate smileyText = Normal (smileySpan ++ smileyAfter) /\
  extractCandidate smileyText <> Normal smileySpan.
Proof.
  repeat split; try reflexivity. vm_compute. discriminate.
Qed.

(** C6, amended: when a balanced span is preceded by prose without [{]
    and followed by prose without [}], the candidate of the extraction
    step is exactly that span. *)
Theorem candidate_is_balanced_span (pre span post : JSString)
  (Hspan : balanced span = true)
  (Hpre : hasChar lbrace pre = false)
  (Hpost : hasChar rbrace post = false) :
  extractCandidate (pre ++ span ++ post) = Normal span.
Proof.
  destruct (balanced_shape _ Hspan) as [mid ->].
  unfold extractCandidate.
  rewrite (stringMatch_skips_prose _ _ Hpre).
  change ((lbrace :: mid ++ [rbrace]) ++ post)
    with (lbrace :: (mid ++ [rbrace]) ++ post).
  rewrite <- app_assoc. simpl app.
  erewrite stringMatch_here; [reflexivity|].
  rewrite reObject_here, N.eqb_refl, (lastIndexOf_before _ _ _ Hpost).
  f_equal. f_equal. f_equal.
  replace (mid ++ rbrace :: post) with ((mid ++ [rbrace]) ++ post)
    by (rewrite <- app_assoc; reflexivity).
  replace (S (List.length mid)) with (List.length (mid ++ [rbrace]))
    by (rewrite length_app; simpl; lia).
  rewrite firstn_app, Nat.sub_diag, firstn_all. simpl. apply app_nil_r.
Qed.

Lemma candidate_is_balanced_span_witness :
  extractCandidate (smileyBefore ++ smileySpan ++ str " Hope this helps.")
  = Normal smileySpan.
Proof.
  apply (candidate_is_balanced_span smileyBefore smileySpan
           (str " Hope this helps.")); reflexivity.
Defined.

(** ** The parser never runs out of fuel *)

Section ParserFuel.

Lemma skipWs_le (s : JSString) :
  (List.length (skipWs s) <= List.length s)%nat.
Proof.
  induction s as [|c s IH]; simpl; [lia|].
  destruct (isJsonSpace c); simpl; lia.
Qed.

Lemma skipWs_cons (s s1 : JSString) (c : CodeUnit) :
  skipWs s = c :: s1 -> (List.length s1 < List.length s)%nat.
Proof.
  intros H. pose proof (skipWs_le s) as L. rewrite H in L. simpl in L. lia.
Qed.

Lemma consStr_some (c : CodeUnit) (r : option (JSString * JSString))
  (v rest : JSString) :
  consStr c r = Some (v, rest) -> exists v', r = Some (v', rest).
Proof.
  destruct r as [[m t]|]; simpl; intros H; [|discriminate].
  injection H as _ <-. exists m. reflexivity.
Qed.

Lemma parseStringBody_shrinks (n : nat) :
  forall s v rest, (List.length s <= n)%nat ->
  parseStringBody s = Some (v, rest) ->
  (List.length rest < List.length s)%nat.
Proof.
  induction n as [|n IH]; intros s v rest Hn H.
  - destruct s; [discriminate|simpl in Hn; lia].
  - destruct s as [|c s]; [discriminate|].
    simpl in Hn. simpl in H.
    destruct (c =? dquote).
    { injection H as _ <-. simpl. lia. }
    destruct (c =? backslash).
    + destruct s as [|e s]; [discriminate|].
      destruct (e =? 117).
      * destruct s as [|h1 [|h2 [|h3 [|h4 s]]]]; try discriminate.
        destruct (hex4 h1 h2 h3 h4); [|discriminate].
        apply consStr_some in H as [v' H].
        apply IH in H; simpl in *; lia.
      * destruct (escapeChar e); [|discriminate].
        apply consStr_some in H as [v' H].
        apply IH in H; simpl in *; lia.
    + destruct (c <? 32); [discriminate|].
      apply consStr_some in H as [v' H].
      apply IH in H; simpl in *; lia.
Qed.

Lemma takeDigits_le (s : JSString) :
  (List.length (snd (takeDigits s)) <= List.length s)%nat.
Proof.
  induction s as [|c s IH]; simpl; [lia|].
  destruct (isDigit c); [|simpl; lia].
  destruct (takeDigits s) as [ds rest]. simpl in *. lia.
Qed.

Lemma parseInt_shrinks (s rest : JSString) (ds : list N) :
  parseInt s = Some (ds, rest) -> (List.length rest < List.length s)%nat.
Proof.
  destruct s as [|c s]; [discriminate|]. unfold parseInt.
  destruct (c =? 48).
  - intros H. injection H as _ <-. simpl. lia.
  - destruct (isDigit c) eqn:D; [|discriminate].
    intros H. injection H as H.
    pose proof (takeDigits_le s) as L.
    simpl in H. rewrite D in H. destruct (takeDigits s) as [ds' r'].
    injection H as _ <-. simpl in *. lia.
Qed.

Lemma parseFrac_le (s rest : JSString) (ds : list N) :
  parseFrac s = Some (ds, rest) -> (List.length rest <= List.length s)%nat.
Proof.
  destruct s as [|c s]; simpl.
  - intros H. injection H as _ <-. simpl. lia.
  - destruct (c =? 46).
    + pose proof (takeDigits_le s) as L.
      destruct (takeDigits s) as [[|d ds'] r']; [discriminate|].
      intros H. injection H as _ <-. simpl in *. lia.
    + intros H. injection H as _ <-. simpl. lia.
Qed.

Lemma parseExp_le (s rest : JSString) (e : Z) :
  parseExp s = Some (e, rest) -> (List.length rest <= List.length s)%nat.
Proof.
  destruct s as [|c s]; simpl.
  - intros H. injection H as _ <-. simpl. lia.
  - destruct ((c =? 101) || (c =? 69)).
    + destruct s as [|sg t].
      * simpl. discriminate.
      * destruct (sg =? 45).
        { pose proof (takeDigits_le t) as L.
          destruct (takeDigits t) as [[|d ds'] r']; [discriminate|].
          intros H. injection H as _ <-. simpl in *. lia. }
        destruct (sg =? 43).
        { pose proof (takeDigits_le t) as L.
          destruct (takeDigits t) as [[|d ds'] r']; [discriminate|].
          intros H. injection H as _ <-. simpl in *. lia. }
        pose proof (takeDigits_le (sg :: t)) as L.
        destruct (takeDigits (sg :: t)) as [[|d ds'] r']; [discriminate|].
        intros H. injection H as _ <-. simpl in *. lia.
    + intros H. injection H as _ <-. simpl. lia.
Qed.

Lemma parseNumber_shrinks (s rest : JSString) (q : Q) :
  parseNumber s = Some (q, rest) -> (List.length rest < List.length s)%nat.
Proof.
  unfold parseNumber.
  set (p := match s with
            | [] => (false, s)
            | c :: s' => if c =? 45 then (true, s') else (false, s)
            end).
  assert (L0 : (List.length (snd p) <= List.length s)%nat).
  { subst p. destruct s as [|c s']; simpl; [lia|].
    destruct (c =? 45); simpl; lia. }
  destruct p as [neg s0]. simpl in L0.
  destruct (parseInt s0) as [[ids s1]|] eqn:E1; [|discriminate].
  destruct (parseFrac s1) as [[fds s2]|] eqn:E2; [|discriminate].
  destruct (parseExp s2) as [[e s3]|] eqn:E3; [|discriminate].
  intros H. injection H as _ <-.
  apply parseInt_shrinks in E1. apply parseFrac_le in E2.
  apply parseExp_le in E3. lia.
Qed.

Lemma stripPrefix_length (p s rest : JSString) :
  stripPrefix p s = Some rest ->
  (List.length rest + List.length p = List.length s)%nat.
Proof.
  revert s. induction p as [|x p IH]; intros s H.
  - injection H as <-. simpl. lia.
  - destruct s as [|y s]; [discriminate|]. simpl in H.
    destruct (x =? y); [|discriminate].
    apply IH in H. simpl. lia.
Qed.

Lemma parseLiteral_shrinks (s rest : JSString) (v : JSValue) :
  parseLiteral s = POk v rest -> (List.length rest < List.length s)%nat.
Proof.
  unfold parseLiteral.
  destruct (stripPrefix (str "true") s) eqn:E1.
  { intros H. injection H as _ <-. apply stripPrefix_length in E1.
    simpl in E1. lia. }
  destruct (stripPrefix (str "false") s) eqn:E2.
  { intros H. injection H as _ <-. apply stripPrefix_length in E2.
    simpl in E2. lia. }
  destruct (stripPrefix (str "null") s) eqn:E3; [|discriminate].
  intros H. injection H as _ <-. apply stripPrefix_length in E3.
  simpl in E3. lia.
Qed.

End ParserFuel.

Section ParserFuelNested.

Lemma parse_shrinks (fuel : nat) :
  (forall s v r, parseValue fuel s = POk v r ->
     (List.length r < List.length s)%nat) /\
  (forall acc s v r, parseMembers fuel acc s = POk v r ->
     (List.length r < List.length s)%nat) /\
  (forall acc s v r, parseElements fuel acc s = POk v r ->
     (List.length r < List.length s)%nat).
Proof.
  induction fuel as [|f [IHv [IHm IHe]]].
  - repeat split; intros; discriminate.
  - split; [|split].
    + intros s v r H. simpl in H.
      destruct (skipWs s) as [|c s1] eqn:E; [discriminate|].
      apply skipWs_cons in E.
      destruct (c =? lbrace).
      { destruct (skipWs s1) as [|c2 s2] eqn:E2; [discriminate|].
        destruct (c2 =? rbrace).
        - injection H as _ <-. apply skipWs_cons in E2. lia.
        - apply IHm in H. lia. }
      destruct (c =? lbracket).
      { destruct (skipWs s1) as [|c2 s2] eqn:E2; [discriminate|].
        destruct (c2 =? rbracket).
        - injection H as _ <-. apply skipWs_cons in E2. lia.
        - apply IHe in H. lia. }
      destruct (c =? dquote).
      { destruct (parseStringBody s1) as [[w rest]|] eqn:Es; [|discriminate].
        injection H as _ <-.
        apply (parseStringBody_shrinks _ _ _ _ (le_n _)) in Es. lia. }
      destruct ((c =? 45) || isDigit c).
      { destruct (parseNumber (c :: s1)) as [[q rest]|] eqn:En; [|discriminate].
        injection H as _ <-. apply parseNumber_shrinks in En.
        simpl in En. lia. }
      apply parseLiteral_shrinks in H. simpl in H. lia.
    + intros acc s v r H. simpl in H.
      destruct (skipWs s) as [|c s1] eqn:E; [discriminate|].
      apply skipWs_cons in E.
      destruct (c =? dquote); [|discriminate].
      destruct (parseStringBody s1) as [[k s2]|] eqn:Es; [|discriminate].
      apply (parseStringBody_shrinks _ _ _ _ (le_n _)) in Es.
      destruct (skipWs s2) as [|c3 s3] eqn:E3; [discriminate|].
      apply skipWs_cons in E3.
      destruct (c3 =? colon); [|discriminate].
      destruct (parseValue f s3) as [w s4| |] eqn:Ev; try discriminate.
      apply IHv in Ev.
      destruct (skipWs s4) as [|c5 s5] eqn:E5; [discriminate|].
      apply skipWs_cons in E5.
      destruct (c5 =? comma).
      { apply IHm in H. lia. }
      destruct (c5 =? rbrace); [|discriminate].
      injection H as _ <-. lia.
    + intros acc s v r H. simpl in H.
      destruct (parseValue f s) as [w s1| |] eqn:Ev; try discriminate.
      apply IHv in Ev.
      destruct (skipWs s1) as [|c2 s2] eqn:E2; [discriminate|].
      apply skipWs_cons in E2.
      destruct (c2 =? comma).
      { apply IHe in H. lia. }
      destruct (c2 =? rbracket); [|discriminate].
      injection H as _ <-. lia.
Qed.

Lemma parse_enough_fuel (fuel : nat) :
  (forall s, (2 * List.length s + 1 <= fuel)%nat ->
     parseValue fuel s <> POutOfFuel) /\
  (forall acc s, (2 * List.length s + 1 <= fuel)%nat ->
     parseMembers fuel acc s <> POutOfFuel) /\
  (forall acc s, (2 * List.length s + 2 <= fuel)%nat ->
     parseElements fuel acc s <> POutOfFuel).
Proof.
  induction fuel as [|f [IHv [IHm IHe]]].
  - repeat split; intros; lia.
  - split; [|split].
    + intros s L. simpl.
      destruct (skipWs s) as [|c s1] eqn:E; [discriminate|].
      apply skipWs_cons in E.
      destruct (c =? lbrace).
      { destruct (skipWs s1) as [|c2 s2] eqn:E2; [discriminate|].
        destruct (c2 =? rbrace); [discriminate|]. apply IHm. lia. }
      destruct (c =? lbracket).
      { destruct (skipWs s1) as [|c2 s2] eqn:E2; [discriminate|].
        destruct (c2 =? rbracket); [discriminate|]. apply IHe. lia. }
      destruct (c =? dquote).
      { destruct (parseStringBody s1) as [[w rest]|]; discriminate. }
      destruct ((c =? 45) || isDigit c).
      { destruct (parseNumber (c :: s1)) as [[q rest]|]; discriminate. }
      unfold parseLiteral.
      destruct (stripPrefix (str "true") (c :: s1)); [discriminate|].
      destruct (stripPrefix (str "false") (c :: s1)); [discriminate|].
      destruct (stripPrefix (str "null") (c :: s1)); discriminate.
    + intros acc s L. simpl.
      destruct (skipWs s) as [|c s1] eqn:E; [discriminate|].
      apply skipWs_cons in E.
      destruct (c =? dquote); [|discriminate].
      destruct (parseStringBody s1) as [[k s2]|] eqn:Es; [|discriminate].
      apply (parseStringBody_shrinks _ _ _ _ (le_n _)) in Es.
      destruct (skipWs s2) as [|c3 s3] eqn:E3; [discriminate|].
      apply skipWs_cons in E3.
      destruct (c3 =? colon); [|discriminate].
      destruct (parseValue f s3) as [w s4| |] eqn:Ev.
      * apply (proj1 (parse_shrinks f)) in Ev.
        destruct (skipWs s4) as [|c5 s5] eqn:E5; [discriminate|].
        apply skipWs_cons in E5.
        destruct (c5 =? comma).
        { apply IHm. lia. }
        destruct (c5 =? rbrace); discriminate.
      * discriminate.
      * exfalso. apply (IHv s3); [lia|exact Ev].
    + intros acc s L. simpl.
      destruct (parseValue f s) as [w s1| |] eqn:Ev.
      * apply (proj1 (parse_shrinks f)) in Ev.
        destruct (skipWs s1) as [|c2 s2] eqn:E2; [discriminate|].
        apply skipWs_cons in E2.
        destruct (c2 =? comma).
        { apply IHe. lia. }
        destruct (c2 =? rbracket); discriminate.
      * discriminate.
      * exfalso. apply (IHv s); [lia|exact Ev].
Qed.

(** [JSON_parse] answers [None] only where the text is not JSON: the
    fuel it gives is never used up. *)
Theorem JSON_parse_fuel (text : JSString) :
  parseValue (S (2 * List.length text)) text <> POutOfFuel.
Proof. apply (proj1 (parse_enough_fuel _)). lia. Qed.

End ParserFuelNested.

(** ** C7 *)

(** C7: on the candidate [{"a": 1, // comment], line feed,
    [ "b": 2,}] the repair step strips the line comment and the
    trailing comma, and the repaired text parses to the value that
    [{"a":1,"b":2}] parses to. *)
Theorem repair_comment_and_trailing_comma :
  stripLineComments commented
  = str "{" ++ quoted "a" ++ str ": 1, " ++ [LF] ++ str " " ++ quoted "b"
    ++ str ": 2,}" /\
  repair commented = commentedRepaired /\
  JSON_parse (repair commented) = Some compactValue /\
  JSON_parse (repair commented) = JSON_parse compact /\
  parseStep (repair commented) = parseStep compact.
Proof. repeat split; vm_compute; reflexivity. Qed.

(** ** C2 *)

Lemma parseStep_normal (cleaned : JSString) :
  exists v, parseStep cleaned = Normal v.
Proof.
  unfold parseStep. destruct (JSON_parse cleaned) as [v|]; eauto.
Qed.

(** The unterminated string is refused by the grammar, not for want of
    fuel. *)
Example unterminated_syntax_error :
  parseValue (S (2 * List.length unterminated)) unterminated = PSyntaxError.
Proof. vm_compute. reflexivity. Qed.

(** C2: on malformed JSON the parse step yields [null] and does not
    throw; the parse step never throws, and every error
    [extractAndParseJSON] throws is the one of the extraction step. *)
Theorem parse_failure_yields_null (cleaned : JSString)
  (Hmalformed : JSON_parse cleaned = None) :
  parseStep cleaned = Normal VNull /\
  (forall c t, parseStep c <> Throw t) /\
  (forall text t, extractAndParseJSON text = Throw t ->
     extractCandidate text = Throw t /\ t = notFoundError).
Proof.
  split; [|split].
  - unfold parseStep. rewrite Hmalformed. reflexivity.
  - intros c t H. destruct (parseStep_normal c) as [v E].
    rewrite E in H. discriminate.
  - intros text t. unfold extractAndParseJSON, extractCandidate.
    destruct (stringMatch reObject text) as [m|].
    + intros H. destruct (parseStep_normal (repair m)) as [v E].
      rewrite E in H. discriminate.
    + intros H. injection H as <-. split; reflexivity.
Qed.

Lemma parse_failure_yields_null_witness :
  JSON_parse unterminated = None /\
  parseStep unterminated = Normal VNull.
Proof.
  split; [vm_compute; reflexivity|].
  apply (parse_failure_yields_null unterminated). vm_compute. reflexivity.
Defined.

(** ** The mapping step on objects *)

Section MappingFacts.

Variable host : Host.

Lemma eqs_eq (a b : JSString) : eqs a b = true -> a = b.
Proof.
  revert b. induction a as [|x a IH]; intros [|y b] H; try discriminate.
  - reflexivity.
  - simpl in H. apply andb_true_iff in H as [Hx Hab].
    apply N.eqb_eq in Hx. subst y. f_equal. apply IH, Hab.
Qed.

Lemma getProp_object (props : list (JSString * JSValue)) (key : JSString) :
  getProp host (VObject props) key = Normal (own props key).
Proof.
  unfold getProp, own. destruct (lookupProp key props); reflexivity.
Qed.

(** The mapping of a material object in closed form: the id is the
    value of [materialId] when that is truthy, and a generated one
    otherwise. *)
Lemma mapMaterial_object (props : list (JSString * JSValue)) (st : State) :
  mapMaterial host (VObject props) st =
  if toBoolean (own props (str "materialId"))
  then (Normal (materialOf (own props (str "materialId")) props), st)
  else (Normal (materialOf (nextId host st) props), drawn 1 st).
Proof.
  unfold mapMaterial. rewrite !getProp_object.
  unfold materialOf, pick, bind, lift, orElse, ret, randomUUID, nextId, drawn.
  destruct (toBoolean (own props (str "materialId")));
    destruct (toBoolean (own props (str "name")));
    destruct (toBoolean (own props (str "unit")));
    destruct (toBoolean (own props (str "costPerUnit")));
    destruct (toBoolean (own props (str "description")));
    reflexivity.
Qed.

Lemma mapLabor_object (props : list (JSString * JSValue)) (st : State) :
  mapLabor host (VObject props) st =
  if toBoolean (own props (str "laborId"))
  then (Normal (laborOf (own props (str "laborId")) props), st)
  else (Normal (laborOf (nextId host st) props), drawn 1 st).
Proof.
  unfold mapLabor. rewrite !getProp_object.
  unfold laborOf, pick, bind, lift, orElse, ret, randomUUID, nextId, drawn.
  destruct (toBoolean (own props (str "laborId")));
    destruct (toBoolean (own props (str "role")));
    destruct (toBoolean (own props (str "costPerHour")));
    destruct (toBoolean (own props (str "description")));
    reflexivity.
Qed.

Lemma lacks_own (key : JSString) (props : list (JSString * JSValue)) :
  lacks key (VObject props) = true -> toBoolean (own props key) = false.
Proof.
  unfold lacks, own. destruct (lookupProp key props) as [x|].
  - intros H. apply negb_true_iff in H. exact H.
  - reflexivity.
Qed.

Lemma conforms_absent (schema : list JSString) (key : JSString)
  (props : list (JSString * JSValue)) :
  conformsTo schema (VObject props) = true ->
  existsb (eqs key) schema = false ->
  lookupProp key props = None.
Proof.
  simpl. intros Hc Hk. induction props as [|[k v] props IH]; [reflexivity|].
  simpl in Hc. apply andb_true_iff in Hc as [Hk0 Hrest].
  simpl. destruct (eqs key k) eqn:E.
  - apply eqs_eq in E. subst k. rewrite Hk in Hk0. discriminate.
  - apply IH, Hrest.
Qed.

Lemma lookupProp_setProp_other (k k' : JSString) (v : JSValue)
  (props : list (JSString * JSValue)) :
  eqs k k' = false ->
  lookupProp k (setProp k' v props) = lookupProp k props.
Proof.
  intros Hk. induction props as [|[k0 v0] props IH].
  - simpl. rewrite Hk. reflexivity.
  - simpl. destruct (eqs k' k0) eqn:E.
    + apply eqs_eq in E. subst k0. simpl. rewrite Hk. reflexivity.
    + simpl. rewrite IH. reflexivity.
Qed.

Lemma own_setProp_other (k k' : JSString) (v : JSValue)
  (props : list (JSString * JSValue)) :
  eqs k k' = false -> own (setProp k' v props) k = own props k.
Proof.
  intros H. unfold own. rewrite lookupProp_setProp_other by exact H.
  reflexivity.
Qed.

(** The [id] property of a parsed material has no part in the mapping. *)
Lemma mapMaterial_ignores_id (props : list (JSString * JSValue))
  (v : JSValue) (st : State) :
  mapMaterial host (VObject (setProp (str "id") v props)) st =
  mapMaterial host (VObject props) st.
Proof.
  rewrite !mapMaterial_object. unfold materialOf.
  rewrite !own_setProp_other by reflexivity. reflexivity.
Qed.

Lemma mapLabor_ignores_id (props : list (JSString * JSValue))
  (v : JSValue) (st : State) :
  mapLabor host (VObject (setProp (str "id") v props)) st =
  mapLabor host (VObject props) st.
Proof.
  rewrite !mapLabor_object. unfold laborOf.
  rewrite !own_setProp_other by reflexivity. reflexivity.
Qed.

Lemma drawn_drawn (n m : nat) (st : State) :
  drawn n (drawn m st) = drawn (n + m) st.
Proof. unfold drawn. simpl. f_equal. lia. Qed.

Lemma drawn_zero (st : State) : drawn 0 st = st.
Proof. destruct st. reflexivity. Qed.

(** A mapping that draws one identifier for each item of a list gives
    the items the identifiers of consecutive draws. *)
Lemma mapM_generated {B : Type} (f : JSValue -> M B) (idOf : B -> JSValue)
  (P : JSValue -> bool) :
  (forall m st, P m = true ->
     exists b, f m st = (Normal b, drawn 1 st) /\ idOf b = nextId host st) ->
  forall ms st, forallb P ms = true ->
  exists bs,
    mapM f ms st = (Normal bs, drawn (List.length ms) st) /\
    map idOf bs =
    map (fun k => VString (uuidAt host (k + uuidCalls st)))
      (seq 0 (List.length ms)).
Proof.
  intros Hf ms. induction ms as [|m ms IH]; intros st HP.
  - exists []. simpl. unfold ret. rewrite drawn_zero. split; reflexivity.
  - simpl in HP. apply andb_true_iff in HP as [Hm Hms].
    destruct (Hf m st Hm) as [b [Eb Ib]].
    destruct (IH (drawn 1 st) Hms) as [bs [Ebs Ibs]].
    exists (b :: bs). split.
    + simpl mapM. unfold bind at 1. rewrite Eb.
      unfold bind at 1. rewrite Ebs. unfold ret.
      rewrite drawn_drawn. f_equal. f_equal. simpl. lia.
    + simpl. rewrite Ib, Ibs. f_equal.
      rewrite <- seq_shift, map_map. apply map_ext.
      intros k. simpl. do 2 f_equal. lia.
Qed.

Lemma generated_NoDup (n : nat) (st : State) :
  (forall i j, uuidAt host i = uuidAt host j -> i = j) ->
  NoDup (map (fun k => VString (uuidAt host (k + uuidCalls st))) (seq 0 n)).
Proof.
  intros Hinj. apply Injective_map_NoDup; [|apply seq_NoDup].
  intros i j H. injection H as H. apply Hinj in H. lia.
Qed.

End MappingFacts.

Lemma exampleHost_fresh : FreshIds exampleHost.
Proof.
  split.
  - intros i j H. simpl in H. injection H as H.
    apply (f_equal (@List.length N)) in H.
    rewrite !repeat_length in H. exact H.
  - intros i. simpl. discriminate.
Qed.

(** ** C3 *)

(** C3: the mapping step turns the parsed material [{quantity: 5}] into
    a [Material] with name "Material", unit "unit", costPerUnit 0, the
    empty description, quantity 5, and as id the identifier the
    generator returns at this call, which is not empty and differs from
    every identifier drawn before. *)
Theorem default_substitution (host : Host) (st : State)
  (Hfresh : FreshIds host) :
  mapMaterial host quantityOnly st =
    (Normal (Material.mk (VString (uuidAt host (uuidCalls st)))
               (VString (str "Material")) (VString (str "unit"))
               (ofN 0) (ofN 5) (VString [])),
     drawn 1 st) /\
  uuidAt host (uuidCalls st) <> [] /\
  (forall k, (k < uuidCalls st)%nat ->
     uuidAt host k <> uuidAt host (uuidCalls st)).
Proof.
  destruct Hfresh as [Hinj Hne]. split; [reflexivity|]. split.
  - apply Hne.
  - intros k Hk E. apply Hinj in E. lia.
Qed.

Lemma default_substitution_witness :
  mapMaterial exampleHost quantityOnly idle =
    (Normal (Material.mk (VString (str "uuid-"))
               (VString (str "Material")) (VString (str "unit"))
               (ofN 0) (ofN 5) (VString [])),
     drawn 1 idle).
Proof.
  exact (proj1 (default_substitution exampleHost idle exampleHost_fresh)).
Defined.

(** ** The analysis flow *)

Section FlowFacts.

Variable host : Host.

Lemma Draws_ret {A : Type} (a : A) : Draws (ret a).
Proof. intros st. exists 0%nat. simpl. symmetry. apply drawn_zero. Qed.

Lemma Draws_lift {A : Type} (c : Completion A) : Draws (lift c).
Proof. intros st. exists 0%nat. simpl. symmetry. apply drawn_zero. Qed.

Lemma Draws_randomUUID : Draws (randomUUID host).
Proof. intros st. exists 1%nat. reflexivity. Qed.

Lemma Draws_bind {A B : Type} (m : M A) (k : A -> M B) :
  Draws m -> (forall a, Draws (k a)) -> Draws (bind m k).
Proof.
  intros Hm Hk st. unfold bind. destruct (Hm st) as [n En].
  destruct (m st) as [[a|t] st1]; simpl in En; subst st1.
  - destruct (Hk a (drawn n st)) as [n' En']. exists (n' + n)%nat.
    rewrite En'. apply drawn_drawn.
  - exists n. reflexivity.
Qed.

Lemma Draws_orElse (a : JSValue) (b : M JSValue) :
  Draws b -> Draws (orElse a b).
Proof.
  intros Hb. unfold orElse. destruct (toBoolean a); [apply Draws_ret|exact Hb].
Qed.

Lemma Draws_mapM {A B : Type} (f : A -> M B) (l : list A) :
  (forall x, Draws (f x)) -> Draws (mapM f l).
Proof.
  intros Hf. induction l as [|x l IH]; simpl.
  - apply Draws_ret.
  - apply Draws_bind; [apply Hf|]. intros y.
    apply Draws_bind; [exact IH|]. intros ys. apply Draws_ret.
Qed.

Lemma Draws_callMap {B : Type} (what : JSString) (base : JSValue)
  (f : JSValue -> M B) :
  (forall x, Draws (f x)) -> Draws (callMap host what base f).
Proof.
  intros Hf. destruct base; simpl; try apply Draws_lift.
  apply Draws_mapM, Hf.
Qed.

Local Ltac draws :=
  repeat match goal with
  | |- Draws (ret _) => apply Draws_ret
  | |- Draws (lift _) => apply Draws_lift
  | |- Draws (randomUUID _) => apply Draws_randomUUID
  | |- Draws (orElse _ _) => apply Draws_orElse
  | |- Draws (bind _ _) => apply Draws_bind; [|intros ?]
  | |- Draws (callMap _ _ _ (mapMaterial _)) =>
      apply Draws_callMap; intros ?; unfold mapMaterial
  | |- Draws (callMap _ _ _ (mapLabor _)) =>
      apply Draws_callMap; intros ?; unfold mapLabor
  end.

Lemma Draws_mapMaterial (m : JSValue) : Draws (mapMaterial host m).
Proof. unfold mapMaterial. draws. Qed.

Lemma Draws_mapLabor (l : JSValue) : Draws (mapLabor host l).
Proof. unfold mapLabor. draws. Qed.

Lemma Draws_transform (parsed : JSValue) : Draws (transform host parsed).
Proof. unfold transform. draws. Qed.

Lemma Draws_estimate (response : Completion JSString) :
  Draws (estimate host response).
Proof.
  unfold estimate, normalize. draws. apply Draws_transform.
Qed.

(** What [analyzeProject] leaves behind, by the way lines 85 to 112
    end. *)
Lemma analyzeProject_outcome
  (onEstimationComplete : ProjectDetails.t -> Completion unit)
  (response : Completion JSString) (st : State) :
  let final := snd (analyzeProject host onEstimationComplete response st) in
  isLoading final = false /\
  match fst (estimate host response (started st)) with
  | Normal details =>
      calls final = calls st ++ [details] /\
      estimation final = Some details /\
      error final =
        match onEstimationComplete details with
        | Normal _ => []
        | Throw err => errorText err
        end
  | Throw err =>
      calls final = calls st /\
      estimation final = None /\
      error final = errorText err
  end.
Proof.
  destruct (Draws_estimate response (started st)) as [n En].
  unfold analyzeProject, estimate, andFinally, tryCatch, bind, lift,
    setIsLoading, setError, setEstimation, recordCall, started in *.
  simpl in *.
  destruct response as [text|t].
  - destruct (normalize host text _) as [[details|err] st1].
    + simpl in En. subst st1. simpl.
      destruct (onEstimationComplete details); simpl; repeat split.
    + simpl in En. subst st1. simpl. repeat split.
  - simpl. repeat split.
Qed.

End FlowFacts.

(** ** C5 *)

(** C5, as the specification states it, fails: for the answer
    [malformedAnswer] the parse step yields [null], the mapping throws a
    [TypeError] on reading [projectName], and the message shown is the
    message of that error, not the fallback. *)
Lemma null_dereference_shows_its_own_message :
  extractAndParseJSON malformedAnswer = Normal VNull /\
  error (snd (analyzeProject exampleHost (fun _ => Normal tt)
                (Normal malformedAnswer) idle))
  = str "Cannot read properties of null (reading 'projectName')" /\
  error (snd (analyzeProject exampleHost (fun _ => Normal tt)
                (Normal malformedAnswer) idle))
  <> fallbackMessage.
Proof.
  split; [vm_compute; reflexivity|].
  split; [vm_compute; reflexivity|].
  vm_compute. discriminate.
Qed.

(** C5, amended: when the parse step yields [null], the mapping throws
    on reading [projectName] of [null], and what reaches the user is the
    message of that [TypeError], since the handler takes the message of
    every [Error]; no estimate is stored, the callback is not called and
    loading ends.  The fallback "Failed to analyze project. Please try
    again." is shown for a thrown value that is not an [Error]. *)
Theorem null_outcome_surfaces_type_error (host : Host)
  (onEstimationComplete : ProjectDetails.t -> Completion unit)
  (text : JSString) (st : State)
  (Hnull : extractAndParseJSON text = Normal VNull) :
  let final :=
    snd (analyzeProject host onEstimationComplete (Normal text) st) in
  error final = nullishReadMessage host VNull (str "projectName") /\
  estimation final = None /\
  calls final = calls st /\
  isLoading final = false /\
  (forall v, errorText (NotAnError v) = fallbackMessage) /\
  (forall ctor message, errorText (ErrorInstance ctor message) = message).
Proof.
  pose proof (analyzeProject_outcome host onEstimationComplete
                (Normal text) st) as H.
  cbv zeta in *. destruct H as [Hl H].
  unfold estimate, normalize in H. unfold bind at 1 in H. simpl lift in H.
  cbv iota beta in H. unfold bind at 1 in H. unfold lift at 1 in H.
  rewrite Hnull in H. simpl in H. destruct H as [Hc [He Hr]].
  repeat split; assumption.
Qed.

Lemma null_outcome_surfaces_type_error_witness :
  error (snd (analyzeProject exampleHost (fun _ => Normal tt)
                (Normal malformedAnswer) idle))
  = nullishReadMessage exampleHost VNull (str "projectName").
Proof.
  refine (proj1 (null_outcome_surfaces_type_error exampleHost
                   (fun _ => Normal tt) malformedAnswer idle _)).
  vm_compute. reflexivity.
Defined.

(** ** C9 *)

(** C9: when extraction, repair, parsing and mapping all succeed, the
    callback is called exactly once, with the record that is stored for
    display: one call is logged, with that record, and how the run ends
    is how [onEstimationComplete] ends on that record (no error text
    when it returns, the text of what it throws otherwise).  On every
    run in which one of the steps fails, or the service does, the
    callback is not called: no call is logged and the run ends the same
    way whatever the callback is. *)
Theorem callback_once (host : Host)
  (onEstimationComplete : ProjectDetails.t -> Completion unit)
  (response : Completion JSString) (st : State) :
  let final := snd (analyzeProject host onEstimationComplete response st) in
  match fst (estimate host response (started st)) with
  | Normal details =>
      calls final = calls st ++ [details] /\
      estimation final = Some details /\
      error final =
        match onEstimationComplete details with
        | Normal _ => []
        | Throw err => errorText err
        end
  | Throw _ =>
      calls final = calls st /\
      forall other : ProjectDetails.t -> Completion unit,
        snd (analyzeProject host other response st) = final
  end.
Proof.
  destruct (Draws_estimate host response (started st)) as [n En].
  unfold analyzeProject, estimate, andFinally, tryCatch, bind, lift,
    setIsLoading, setError, setEstimation, recordCall, started in *.
  simpl in *.
  destruct response as [text|t].
  - destruct (normalize host text _) as [[details|err] st1].
    + simpl in En. subst st1. simpl.
      destruct (onEstimationComplete details); simpl; repeat split.
    + simpl in En. subst st1. simpl. split; [reflexivity|].
      intros other. reflexivity.
  - simpl. split; [reflexivity|]. intros other. reflexivity.
Qed.

(** A callback that throws on every record shows that the callback is
    applied on a successful run and on no other. *)
Example throwing_callback_is_felt :
  error (snd (analyzeProject exampleHost
                (fun _ => Throw (NotAnError VNull)) (Normal shedAnswer) idle))
  = fallbackMessage /\
  error (snd (analyzeProject exampleHost
                (fun _ => Throw (NotAnError VNull))
                (Normal (str "no braces")) idle))
  = str "JSON object not found.".
Proof. split; vm_compute; reflexivity. Qed.

(** The end-to-end example of the specification. *)
Example shed_end_to_end :
  fst (estimate exampleHost (Normal shedAnswer) (started idle))
  = Normal shedDetails /\
  calls (snd (analyzeProject exampleHost (fun _ => Normal tt)
                (Normal shedAnswer) idle))
  = [shedDetails] /\
  estimation (snd (analyzeProject exampleHost (fun _ => Normal tt)
                     (Normal shedAnswer) idle))
  = Some shedDetails.
Proof. repeat split; vm_compute; reflexivity. Qed.

(** A text without braces: the message of the extraction error is
    shown, loading ends and no estimate is stored. *)
Example no_braces_end_to_end :
  snd (analyzeProject exampleHost (fun _ => Normal tt)
         (Normal (str "I cannot help with that.")) idle)
  = {| isLoading := false; error := str "JSON object not found.";
       estimation := None; calls := []; uuidCalls := 0 |}.
Proof. vm_compute. reflexivity. Qed.

(** ** C10 *)

Section CommentStripping.

Lemma replaceFrom_skip (r : pattern) (rep l rest : JSString) :
  replaceFrom r rep (List.length l) (l ++ rest) = replaceFrom r rep 0 rest.
Proof.
  induction l as [|c l IH]; simpl.
  - destruct rest; reflexivity.
  - exact IH.
Qed.

Lemma rest_of_line (line rest : JSString) :
  forallb notLineTerminator line = true ->
  atEndOfLine rest = true ->
  matchHere [Many notLineTerminator; EndOfLine] (line ++ rest)
  = Some (line, rest).
Proof.
  intros Hline Hrest. induction line as [|c line IH].
  - simpl app. destruct rest as [|t rest].
    + reflexivity.
    + rewrite matchHere_many_cons. simpl in Hrest.
      unfold notLineTerminator at 1. rewrite Hrest. simpl.
      rewrite Hrest. reflexivity.
  - simpl in Hline. apply andb_true_iff in Hline as [Hc Hl].
    simpl app. rewrite matchHere_many_cons, Hc, (IH Hl). reflexivity.
Qed.

Lemma comment_here (line rest : JSString) :
  forallb notLineTerminator line = true ->
  atEndOfLine rest = true ->
  matchHere reLineComment (slash :: slash :: line ++ rest)
  = Some (slash :: slash :: line, rest).
Proof.
  intros Hline Hrest. unfold reLineComment.
  rewrite !matchHere_one_cons. unfold isChar. rewrite N.eqb_refl.
  rewrite (rest_of_line _ _ Hline Hrest). reflexivity.
Qed.

Lemma noLineComment_tail (c : CodeUnit) (s : JSString) :
  noLineComment (c :: s) = true -> noLineComment s = true.
Proof.
  simpl. destruct (c =? slash); [|tauto].
  destruct s as [|d s]; [discriminate|].
  intros H. apply andb_true_iff in H as [_ H]. exact H.
Qed.

(** Text without a comment start stays, whatever follows it. *)
Lemma strip_keeps_prefix (pre s : JSString) :
  noLineComment pre = true ->
  replaceFrom reLineComment [] 0 (pre ++ slash :: s)
  = pre ++ replaceFrom reLineComment [] 0 (slash :: s).
Proof.
  intros Hpre. induction pre as [|c pre IH]; [reflexivity|].
  simpl app. cbn [replaceFrom].
  assert (E : matchHere reLineComment (c :: pre ++ slash :: s) = None).
  { destruct pre as [|d pre].
    - simpl in Hpre. unfold reLineComment. rewrite matchHere_one_cons.
      unfold isChar at 1. destruct (c =? slash); [discriminate|reflexivity].
    - unfold reLineComment. rewrite matchHere_one_cons.
      unfold isChar at 1. simpl in Hpre.
      destruct (c =? slash); [|reflexivity].
      apply andb_true_iff in Hpre as [Hd _]. apply negb_true_iff in Hd.
      simpl app. rewrite matchHere_one_cons. unfold isChar at 1.
      rewrite Hd. reflexivity. }
  rewrite E. f_equal. apply IH. apply (noLineComment_tail _ _ Hpre).
Qed.

End CommentStripping.

(** C10: the repair step does not tell strings from the rest of the
    text.  Wherever a [//] follows text in which no comment starts, the
    first replacement deletes it and all that follows up to the end of
    the line, also inside a string literal; so a candidate that is valid
    JSON can fail to parse after the repair ([urlCandidate]) or parse to
    another value ([separatorCandidate]). *)
Theorem repair_reaches_into_strings (pre line rest : JSString)
  (Hpre : noLineComment pre = true)
  (Hline : forallb notLineTerminator line = true)
  (Hrest : atEndOfLine rest = true) :
  stripLineComments (pre ++ slash :: slash :: line ++ rest)
  = pre ++ stripLineComments rest /\
  (JSON_parse urlCandidate = Some urlValue /\
   parseStep (repair urlCandidate) = Normal VNull) /\
  (JSON_parse separatorCandidate = Some separatorValue /\
   parseStep (repair separatorCandidate) = Normal separatorRepairedValue /\
   separatorRepairedValue <> separatorValue).
Proof.
  split.
  - unfold stripLineComments, replaceAll.
    rewrite (strip_keeps_prefix _ _ Hpre). f_equal.
    cbn [replaceFrom]. rewrite (comment_here _ _ Hline Hrest).
    cbn [List.length app].
    apply (replaceFrom_skip reLineComment [] (slash :: line) rest).
  - split; [split; vm_compute; reflexivity|].
    split; [vm_compute; reflexivity|].
    split; [vm_compute; reflexivity|].
    vm_compute. discriminate.
Qed.

Lemma repair_reaches_into_strings_witness :
  stripLineComments urlCandidate = urlBefore.
Proof.
  refine (eq_trans
    (proj1 (repair_reaches_into_strings urlBefore urlLine [] _ _ _)) _);
    reflexivity.
Defined.

(** * Further properties *)

(** ** Extraction *)

Section ExtractionFacts.

(** A match is a prefix of the text it was tried on. *)
Lemma matchHere_split (r : pattern) :
  forall s m rest, matchHere r s = Some (m, rest) -> m ++ rest = s.
Proof.
  induction r as [|a r IH]; intros s m rest H.
  - injection H as <- <-. reflexivity.
  - destruct a as [p|p|].
    + destruct s as [|c s]; [discriminate|].
      rewrite matchHere_one_cons in H. destruct (p c); [|discriminate].
      destruct (matchHere r s) as [[m' rest']|] eqn:E; [|discriminate].
      injection H as <- <-. simpl. f_equal. apply IH, E.
    + revert m rest H. induction s as [|c s IHs]; intros m rest H.
      * apply IH. exact H.
      * rewrite matchHere_many_cons in H. destruct (p c).
        -- destruct (matchHere (Many p :: r) s) as [[m' rest']|] eqn:E.
           ++ injection H as <- <-. simpl. f_equal. apply IHs. reflexivity.
           ++ apply IH. exact H.
        -- apply IH. exact H.
    + simpl in H. destruct (atEndOfLine s); [|discriminate].
      apply IH. exact H.
Qed.

Lemma lastIndexOf_some (c : CodeUnit) (s : JSString) (j : nat) :
  lastIndexOf c s = Some j ->
  exists mid post,
    s = mid ++ c :: post /\ List.length mid = j /\ hasChar c post = false.
Proof.
  revert j. induction s as [|x s IH]; intros j H; [discriminate|].
  simpl in H. destruct (lastIndexOf c s) as [k|] eqn:E.
  - injection H as <-. destruct (IH k eq_refl) as [mid [post [-> [L P]]]].
    exists (x :: mid), post. simpl. rewrite L. repeat split. exact P.
  - destruct (N.eqb_spec x c) as [->|Hx]; [|discriminate].
    injection H as <-. exists [], s. repeat split.
    unfold hasChar. apply not_true_is_false. intros Hin.
    apply existsb_exists in Hin as [y [Hy Ey]]. apply N.eqb_eq in Ey.
    subst y. apply (proj1 (lastIndexOf_none c s) E). exact Hy.
Qed.

Lemma firstn_skipn_middle (mid post : JSString) (c : CodeUnit) :
  firstn (S (List.length mid)) (mid ++ c :: post) = mid ++ [c] /\
  skipn (S (List.length mid)) (mid ++ c :: post) = post.
Proof.
  induction mid as [|x mid [IH1 IH2]]; [split; reflexivity|].
  split.
  - change (x :: firstn (S (List.length mid)) (mid ++ c :: post)
            = x :: mid ++ [c]).
    rewrite IH1. reflexivity.
  - exact IH2.
Qed.

Lemma reObject_to_last (mid post : JSString) :
  hasChar rbrace post = false ->
  matchHere reObject (lbrace :: mid ++ rbrace :: post)
  = Some (lbrace :: mid ++ [rbrace], post).
Proof.
  intros P. rewrite reObject_here, N.eqb_refl, (lastIndexOf_before _ _ _ P).
  destruct (firstn_skipn_middle mid post rbrace) as [-> ->]. reflexivity.
Qed.

Lemma stringMatch_reObject_shape (text c : JSString) :
  stringMatch reObject text = Some c ->
  exists pre mid post,
    text = pre ++ c ++ post /\ c = lbrace :: mid ++ [rbrace] /\
    hasChar lbrace pre = false /\ hasChar rbrace post = false.
Proof.
  revert c. induction text as [|x t IH]; intros c H; [discriminate|].
  destruct (x =? lbrace) eqn:Ex.
  - apply N.eqb_eq in Ex. subst x.
    destruct (lastIndexOf rbrace t) as [j|] eqn:El.
    + destruct (lastIndexOf_some _ _ _ El) as [mid [post [-> [L P]]]].
      rewrite (stringMatch_here _ _ _ _ (reObject_to_last mid post P)) in H.
      injection H as <-. exists [], mid, post.
      repeat split; [|exact P].
      simpl. rewrite <- app_assoc. reflexivity.
    + rewrite stringMatch_cons in H
        by (rewrite reObject_here, N.eqb_refl, El; reflexivity).
      rewrite (stringMatch_no_rbrace _ El) in H. discriminate.
  - rewrite stringMatch_cons in H
      by (rewrite reObject_here, Ex; reflexivity).
    destruct (IH _ H) as [pre [mid [post [-> [Ec [Hp Hq]]]]]].
    exists (x :: pre), mid, post. repeat split; try assumption.
    unfold hasChar in *. simpl. rewrite Ex, Hp. reflexivity.
Qed.

Lemma stringMatch_reObject_whole (mid : JSString) :
  stringMatch reObject (lbrace :: mid ++ [rbrace])
  = Some (lbrace :: mid ++ [rbrace]).
Proof.
  apply stringMatch_here with (rest := []).
  apply (reObject_to_last mid []). reflexivity.
Qed.

End ExtractionFacts.

(** X1: a candidate is a stretch of the text that opens with [{] and
    closes with [}], with no [{] before it and no [}] after it. *)
Theorem candidate_is_widest_span (text candidate : JSString)
  (Hfound : extractCandidate text = Normal candidate) :
  exists pre mid post,
    text = pre ++ candidate ++ post /\
    candidate = lbrace :: mid ++ [rbrace] /\
    hasChar lbrace pre = false /\ hasChar rbrace post = false.
Proof.
  unfold extractCandidate in Hfound.
  destruct (stringMatch reObject text) as [c|] eqn:E; [|discriminate].
  injection Hfound as <-. apply stringMatch_reObject_shape, E.
Qed.

Lemma candidate_is_widest_span_witness :
  exists pre mid post,
    smileyText = pre ++ (smileySpan ++ smileyAfter) ++ post /\
    smileySpan ++ smileyAfter = lbrace :: mid ++ [rbrace] /\
    hasChar lbrace pre = false /\ hasChar rbrace post = false.
Proof.
  apply (candidate_is_widest_span smileyText (smileySpan ++ smileyAfter)).
  reflexivity.
Defined.

(** X2: extracting from a candidate gives the candidate back. *)
Theorem extraction_idempotent (text candidate : JSString)
  (Hfound : extractCandidate text = Normal candidate) :
  extractCandidate candidate = Normal candidate.
Proof.
  unfold extractCandidate in Hfound.
  destruct (stringMatch reObject text) as [c|] eqn:E; [|discriminate].
  injection Hfound as <-.
  destruct (stringMatch_reObject_shape _ _ E) as [pre [mid [post [_ [-> _]]]]].
  unfold extractCandidate. rewrite stringMatch_reObject_whole. reflexivity.
Qed.

Lemma extraction_idempotent_witness :
  extractCandidate (smileySpan ++ smileyAfter)
  = Normal (smileySpan ++ smileyAfter).
Proof.
  apply (extraction_idempotent smileyText). reflexivity.
Defined.

(** ** Repair *)

Section RepairFacts.

Lemma Subseq_refl (s : JSString) : Subseq s s.
Proof. induction s; constructor; assumption. Qed.

Lemma Subseq_nil_l (s : JSString) : Subseq [] s.
Proof. induction s; constructor; assumption. Qed.

Lemma Subseq_app (a b c d : JSString) :
  Subseq a b -> Subseq c d -> Subseq (a ++ c) (b ++ d).
Proof.
  intros H. induction H; intros Hc; simpl.
  - exact Hc.
  - apply Subseq_drop. auto.
  - apply Subseq_keep. auto.
Qed.

Lemma Subseq_trans (a b c : JSString) :
  Subseq a b -> Subseq b c -> Subseq a c.
Proof.
  intros Hab Hbc. revert a Hab.
  induction Hbc as [|x b c Hbc IH|x b c Hbc IH]; intros a Hab.
  - exact Hab.
  - apply Subseq_drop. apply IH, Hab.
  - inversion Hab as [|x' a' b' H'|x' a' b' H']; subst.
    + apply Subseq_drop. apply IH. assumption.
    + apply Subseq_keep. apply IH. assumption.
Qed.

Lemma Subseq_length (a b : JSString) :
  Subseq a b -> (List.length a <= List.length b)%nat.
Proof. intros H. induction H; simpl; lia. Qed.

Lemma Subseq_single (x : CodeUnit) (m : JSString) :
  In x m -> Subseq [x] m.
Proof.
  induction m as [|y m IH]; intros H; [contradiction|].
  destruct H as [->|H].
  - apply Subseq_keep, Subseq_nil_l.
  - apply Subseq_drop, IH, H.
Qed.

(** A global replacement whose replacement text can be read off every
    match only deletes characters. *)
Lemma replaceFrom_subseq (r : pattern) (rep : JSString) :
  (forall s m rest, matchHere r s = Some (m, rest) ->
     m <> [] /\ Subseq rep m) ->
  forall n s, (List.length s <= n)%nat ->
  Subseq (replaceFrom r rep 0 s) s.
Proof.
  intros Hr. induction n as [|n IH]; intros s L.
  - destruct s; [|simpl in L; lia]. simpl.
    destruct (matchHere r []) as [[m rest]|] eqn:E; [|constructor].
    destruct (Hr _ _ _ E) as [Hm _]. apply matchHere_split in E.
    apply app_eq_nil in E as [E _]. contradiction.
  - destruct s as [|c s].
    + simpl. destruct (matchHere r []) as [[m rest]|] eqn:E; [|constructor].
      destruct (Hr _ _ _ E) as [Hm _]. apply matchHere_split in E.
      apply app_eq_nil in E as [E _]. contradiction.
    + simpl in L. cbn [replaceFrom].
      destruct (matchHere r (c :: s)) as [[m rest]|] eqn:E.
      * destruct (Hr _ _ _ E) as [Hm Hrep]. apply matchHere_split in E.
        destruct m as [|c' m']; [contradiction|].
        simpl in E. injection E as -> <-. cbn [List.length].
        rewrite replaceFrom_skip.
        change (c :: m' ++ rest) with ((c :: m') ++ rest).
        apply Subseq_app; [exact Hrep|].
        apply IH. rewrite length_app in L. lia.
      * apply Subseq_keep. apply IH. lia.
Qed.

Lemma one_first_nonempty (p : CodeUnit -> bool) (r : pattern)
  (s m rest : JSString) :
  matchHere (One p :: r) s = Some (m, rest) -> m <> [].
Proof.
  destruct s as [|c s]; [discriminate|]. rewrite matchHere_one_cons.
  destruct (p c); [|discriminate].
  destruct (matchHere r s) as [[m' rest']|]; [|discriminate].
  intros H. injection H as <- _. discriminate.
Qed.

(** What [,\s*] and a closing character match ends with that
    character. *)
Lemma closer_in_match (x : CodeUnit) (s m rest : JSString) :
  matchHere [One (isChar comma); Many isRegexSpace; One (isChar x)] s
  = Some (m, rest) -> In x m.
Proof.
  destruct s as [|c s]; [discriminate|]. rewrite matchHere_one_cons.
  destruct (isChar comma c); [|discriminate].
  destruct (matchHere [Many isRegexSpace; One (isChar x)] s)
    as [[m1 rest1]|] eqn:E; [|discriminate].
  intros H. injection H as <- _. right.
  revert m1 rest1 E. induction s as [|d s IH]; intros m1 rest1 E.
  - discriminate.
  - rewrite matchHere_many_cons in E.
    assert (Hone : forall m2 r2,
              matchHere [One (isChar x)] (d :: s) = Some (m2, r2) ->
              In x m2).
    { intros m2 r2 H. rewrite matchHere_one_cons in H. unfold isChar in H.
      destruct (N.eqb_spec d x) as [->|]; [|discriminate].
      injection H as <- _. left. reflexivity. }
    destruct (isRegexSpace d); [|eapply Hone; exact E].
    destruct (matchHere [Many isRegexSpace; One (isChar x)] s)
      as [[m' rest']|] eqn:E'.
    + injection E as <- _. right. eapply IH. reflexivity.
    + eapply Hone. exact E.
Qed.

Lemma stripLineComments_subseq (s : JSString) :
  Subseq (stripLineComments s) s.
Proof.
  apply (replaceFrom_subseq reLineComment [] ) with (n := List.length s);
    [|lia].
  intros t m rest H. split.
  - apply (one_first_nonempty _ _ _ _ _ H).
  - apply Subseq_nil_l.
Qed.

Lemma commaCloser_subseq (x : CodeUnit) (s : JSString) :
  Subseq
    (replaceAll [One (isChar comma); Many isRegexSpace; One (isChar x)]
       [x] s) s.
Proof.
  apply replaceFrom_subseq with (n := List.length s); [|lia].
  intros t m rest H. split.
  - apply (one_first_nonempty _ _ _ _ _ H).
  - apply Subseq_single, (closer_in_match _ _ _ _ H).
Qed.

End RepairFacts.

(** X3: the repair step only deletes characters: the repaired text is
    the candidate with some characters left out, in the same order, and
    so it is never longer than the candidate. *)
Theorem repair_only_deletes (candidate : JSString) :
  Subseq (repair candidate) candidate /\
  (List.length (repair candidate) <= List.length candidate)%nat.
Proof.
  assert (H : Subseq (repair candidate) candidate).
  { unfold repair.
    eapply Subseq_trans; [apply (commaCloser_subseq rbracket)|].
    eapply Subseq_trans; [apply (commaCloser_subseq rbrace)|].
    apply stripLineComments_subseq. }
  split; [exact H|apply Subseq_length, H].
Qed.

Section CommentFacts.

Lemma split_line (s : JSString) :
  exists line rest,
    s = line ++ rest /\ forallb notLineTerminator line = true /\
    atEndOfLine rest = true.
Proof.
  induction s as [|c s [line [rest [-> [Hl Hr]]]]].
  - exists [], []. repeat split.
  - destruct (isLineTerminator c) eqn:E.
    + exists [], (c :: line ++ rest). repeat split. exact E.
    + exists (c :: line), rest. repeat split; [|exact Hr].
      simpl. unfold notLineTerminator at 1. rewrite E. exact Hl.
Qed.

Lemma strip_at_comment (s : JSString) :
  exists line rest,
    s = line ++ rest /\ atEndOfLine rest = true /\
    replaceFrom reLineComment [] 0 (slash :: slash :: s)
    = replaceFrom reLineComment [] 0 rest.
Proof.
  destruct (split_line s) as [line [rest [-> [Hl Hr]]]].
  exists line, rest. repeat split; [exact Hr|].
  cbn [replaceFrom]. rewrite (comment_here _ _ Hl Hr).
  cbn [List.length app].
  apply (replaceFrom_skip reLineComment [] (slash :: line) rest).
Qed.

Lemma strip_no_comment (c : CodeUnit) (s : JSString) :
  (c =? slash) && (hd 0 s =? slash) = false ->
  replaceFrom reLineComment [] 0 (c :: s)
  = c :: replaceFrom reLineComment [] 0 s.
Proof.
  intros H. cbn [replaceFrom].
  assert (E : matchHere reLineComment (c :: s) = None).
  { unfold reLineComment. rewrite matchHere_one_cons. unfold isChar at 1.
    destruct (c =? slash); [|reflexivity].
    destruct s as [|d s]; [reflexivity|].
    rewrite matchHere_one_cons. unfold isChar at 1. simpl in H.
    rewrite H. reflexivity. }
  rewrite E. reflexivity.
Qed.

Lemma strip_output (n : nat) :
  forall s, (List.length s <= n)%nat ->
  noDoubleSlash (replaceFrom reLineComment [] 0 s) = true /\
  (hd 0 (replaceFrom reLineComment [] 0 s) = slash -> hd 0 s = slash).
Proof.
  induction n as [|n IH]; intros s L.
  - destruct s; [|simpl in L; lia]. split; [reflexivity|]. intros H. exact H.
  - destruct s as [|c s]; [split; [reflexivity|intros H; exact H]|].
    simpl in L.
    destruct ((c =? slash) && (hd 0 s =? slash)) eqn:E.
    + apply andb_true_iff in E as [Ec Ed].
      apply N.eqb_eq in Ec. subst c.
      destruct s as [|d s]; [discriminate|]. simpl in Ed.
      apply N.eqb_eq in Ed. subst d.
      destruct (strip_at_comment s) as [line [rest [-> [Hr ->]]]].
      simpl in L. rewrite length_app in L.
      destruct (IH rest) as [Hn Hh]; [lia|].
      split; [exact Hn|]. intros _. reflexivity.
    + rewrite (strip_no_comment _ _ E).
      destruct (IH s) as [Hn Hh]; [lia|]. split; [|intros H; exact H].
      destruct (replaceFrom reLineComment [] 0 s) as [|d out] eqn:Eo;
        [reflexivity|].
      change (negb ((c =? slash) && (d =? slash))
              && noDoubleSlash (d :: out) = true).
      rewrite Hn, andb_true_r. apply negb_true_iff.
      destruct (d =? slash) eqn:Ed; [|apply andb_false_r].
      apply N.eqb_eq in Ed. subst d. rewrite (Hh eq_refl) in E. exact E.
Qed.

Lemma strip_fixed (s : JSString) :
  noDoubleSlash s = true -> replaceFrom reLineComment [] 0 s = s.
Proof.
  induction s as [|c s IH]; intros H; [reflexivity|].
  destruct s as [|d s].
  - apply strip_no_comment. simpl. apply andb_false_r.
  - change (negb ((c =? slash) && (d =? slash))
            && noDoubleSlash (d :: s) = true) in H.
    apply andb_true_iff in H as [Hc Hs]. apply negb_true_iff in Hc.
    rewrite strip_no_comment by exact Hc. f_equal. apply IH, Hs.
Qed.

End CommentFacts.

(** X4: after the first replacement no [//] is left, and running it
    again changes nothing. *)
Theorem stripLineComments_idempotent (s : JSString) :
  noDoubleSlash (stripLineComments s) = true /\
  stripLineComments (stripLineComments s) = stripLineComments s.
Proof.
  assert (H : noDoubleSlash (stripLineComments s) = true)
    by apply (proj1 (strip_output _ s (le_n _))).
  split; [exact H|]. apply strip_fixed, H.
Qed.

Lemma replaceFrom_cons (r : pattern) (rep : JSString) (c : CodeUnit)
  (s : JSString) :
  replaceFrom r rep 0 (c :: s) =
  match matchHere r (c :: s) with
  | Some (m, _) =>
      match List.length m with
      | O => rep ++ c :: replaceFrom r rep 0 s
      | S k => rep ++ replaceFrom r rep k s
      end
  | None => c :: replaceFrom r rep 0 s
  end.
Proof. reflexivity. Qed.

Section TrailingCommaFacts.

Variable x : CodeUnit.
Hypothesis x_not_space : isRegexSpace x = false.
Hypothesis x_not_comma : (comma =? x) = false.

Local Abbreviation closer := [Many isRegexSpace; One (isChar x)].
Local Abbreviation commaCloser :=
  [One (isChar comma); Many isRegexSpace; One (isChar x)].

Lemma closer_before_comma (p t : JSString) :
  matchHere closer (p ++ comma :: t) =
  match matchHere closer p with
  | Some (m, q) => Some (m, q ++ comma :: t)
  | None => None
  end.
Proof.
  induction p as [|d p IH].
  - simpl app. rewrite matchHere_many_cons.
    replace (isRegexSpace comma) with false by reflexivity.
    rewrite matchHere_one_cons. unfold isChar. rewrite x_not_comma.
    reflexivity.
  - simpl app. rewrite !matchHere_many_cons, IH.
    assert (Hone :
      matchHere [One (isChar x)] (d :: p ++ comma :: t) =
      match matchHere [One (isChar x)] (d :: p) with
      | Some (m, q) => Some (m, q ++ comma :: t)
      | None => None
      end).
    { rewrite !matchHere_one_cons. destruct (isChar x d); reflexivity. }
    destruct (isRegexSpace d); [|exact Hone].
    destruct (matchHere [Many isRegexSpace; One (isChar x)] p)
      as [[m q]|]; [reflexivity|exact Hone].
Qed.

Lemma commaCloser_before_comma (c : CodeUnit) (p t : JSString) :
  matchHere commaCloser (c :: p ++ comma :: t) =
  match matchHere commaCloser (c :: p) with
  | Some (m, q) => Some (m, q ++ comma :: t)
  | None => None
  end.
Proof.
  rewrite !matchHere_one_cons.
  destruct (isChar comma c); [|reflexivity].
  rewrite closer_before_comma.
  destruct (matchHere closer p) as [[m q]|]; reflexivity.
Qed.

Lemma commaCloser_distributes (t : JSString) :
  forall pre skip, (skip <= List.length pre)%nat ->
  replaceFrom commaCloser [x] skip (pre ++ comma :: t) =
  replaceFrom commaCloser [x] skip pre
  ++ replaceFrom commaCloser [x] 0 (comma :: t).
Proof.
  induction pre as [|c pre IH]; intros skip L.
  - simpl in L. assert (skip = 0)%nat as -> by lia. reflexivity.
  - destruct skip as [|k].
    + rewrite <- app_comm_cons.
      rewrite !replaceFrom_cons, commaCloser_before_comma.
      destruct (matchHere commaCloser (c :: pre)) as [[m q]|] eqn:E.
      * pose proof (one_first_nonempty _ _ _ _ _ E) as Hm.
        apply matchHere_split in E.
        destruct m as [|c' m']; [contradiction|].
        simpl in E. injection E as _ E. cbn [List.length].
        rewrite IH by (rewrite <- E, length_app; lia).
        rewrite app_assoc. reflexivity.
      * rewrite IH by lia. reflexivity.
    + simpl in L. rewrite <- app_comm_cons. cbn [replaceFrom].
      apply IH. lia.
Qed.

Lemma closer_after_spaces (ws rest : JSString) :
  forallb isRegexSpace ws = true ->
  matchHere closer (ws ++ x :: rest) = Some (ws ++ [x], rest).
Proof.
  intros H. induction ws as [|d ws IH].
  - simpl app. rewrite matchHere_many_cons, x_not_space.
    rewrite matchHere_one_cons. unfold isChar. rewrite N.eqb_refl.
    reflexivity.
  - simpl in H. apply andb_true_iff in H as [Hd Hws].
    simpl app. rewrite matchHere_many_cons, Hd, (IH Hws). reflexivity.
Qed.

Lemma commaCloser_replaced (pre ws rest : JSString) :
  forallb isRegexSpace ws = true ->
  replaceAll commaCloser [x] (pre ++ comma :: ws ++ x :: rest) =
  replaceAll commaCloser [x] pre ++ x :: replaceAll commaCloser [x] rest.
Proof.
  intros Hws. unfold replaceAll.
  rewrite commaCloser_distributes by lia. f_equal.
  rewrite replaceFrom_cons, matchHere_one_cons.
  replace (isChar comma comma) with true by reflexivity.
  rewrite (closer_after_spaces _ _ Hws). cbn [consMatch List.length app].
  f_equal. rewrite <- (replaceFrom_skip commaCloser [x] (ws ++ [x]) rest).
  rewrite <- app_assoc. reflexivity.
Qed.

End TrailingCommaFacts.

(** X5: a comma that is followed, after any white space, by [}] is
    replaced by the [}] alone wherever it stands, and the text before
    it and the text after it are repaired on their own; the third
    replacement does the same for [\]]. *)
Theorem trailing_comma_removed (pre ws rest : JSString)
  (Hws : forallb isRegexSpace ws = true) :
  replaceAll reCommaBrace [rbrace] (pre ++ comma :: ws ++ rbrace :: rest)
  = replaceAll reCommaBrace [rbrace] pre
    ++ rbrace :: replaceAll reCommaBrace [rbrace] rest /\
  replaceAll reCommaBracket [rbracket]
    (pre ++ comma :: ws ++ rbracket :: rest)
  = replaceAll reCommaBracket [rbracket] pre
    ++ rbracket :: replaceAll reCommaBracket [rbracket] rest.
Proof.
  split.
  - apply (commaCloser_replaced rbrace); [reflexivity|reflexivity|exact Hws].
  - apply (commaCloser_replaced rbracket); [reflexivity|reflexivity|exact Hws].
Qed.

Lemma trailing_comma_removed_witness :
  replaceAll reCommaBrace [rbrace]
    (str "[1,]" ++ comma :: [32; LF] ++ rbrace :: str " ,}")
  = str "[1,]" ++ rbrace :: str " }".
Proof.
  exact (proj1 (trailing_comma_removed (str "[1,]") [32; LF] (str " ,}")
                  eq_refl)).
Defined.

(** ** What [extractAndParseJSON] returns *)

Section ParsedShape.

Lemma parseMembers_object (fuel : nat) :
  forall acc s v r, parseMembers fuel acc s = POk v r ->
  exists props, v = VObject props.
Proof.
  induction fuel as [|f IH]; intros acc s v r H; [discriminate|].
  simpl in H.
  destruct (skipWs s) as [|c s1]; [discriminate|].
  destruct (c =? dquote); [|discriminate].
  destruct (parseStringBody s1) as [[k s2]|]; [|discriminate].
  destruct (skipWs s2) as [|c3 s3]; [discriminate|].
  destruct (c3 =? colon); [|discriminate].
  destruct (parseValue f s3) as [w s4| |]; try discriminate.
  destruct (skipWs s4) as [|c5 s5]; [discriminate|].
  destruct (c5 =? comma); [apply (IH _ _ _ _ H)|].
  destruct (c5 =? rbrace); [|discriminate].
  injection H as <- _. eauto.
Qed.

Lemma parseValue_brace (fuel : nat) (s : JSString) (w : JSValue)
  (rest : JSString) :
  parseValue fuel (lbrace :: s) = POk w rest ->
  exists props, w = VObject props.
Proof.
  destruct fuel as [|f]; [discriminate|]. intros E. simpl in E.
  destruct (skipWs s) as [|c2 s2]; [discriminate|].
  destruct (c2 =? rbrace).
  - injection E as <- _. eauto.
  - apply parseMembers_object in E. exact E.
Qed.

Lemma JSON_parse_brace (s : JSString) (v : JSValue) :
  JSON_parse (lbrace :: s) = Some v -> exists props, v = VObject props.
Proof.
  unfold JSON_parse.
  destruct (parseValue (S (2 * List.length (lbrace :: s))) (lbrace :: s))
    as [w rest| |] eqn:E; try discriminate.
  destruct (skipWs rest); [|discriminate].
  intros H. injection H as <-. apply (parseValue_brace _ _ _ _ E).
Qed.

Lemma replaceAll_keeps_head (p : CodeUnit -> bool) (r : pattern)
  (rep : JSString) (c : CodeUnit) (s : JSString) :
  p c = false ->
  replaceAll (One p :: r) rep (c :: s)
  = c :: replaceAll (One p :: r) rep s.
Proof.
  intros H. unfold replaceAll. rewrite replaceFrom_cons.
  rewrite matchHere_one_cons, H. reflexivity.
Qed.

Lemma repair_keeps_lbrace (s : JSString) :
  exists s', repair (lbrace :: s) = lbrace :: s'.
Proof.
  unfold repair, stripLineComments, reLineComment, reCommaBrace,
    reCommaBracket.
  rewrite !replaceAll_keeps_head by reflexivity. eauto.
Qed.

End ParsedShape.

(** X6: [extractAndParseJSON] throws the extraction error, or returns
    [null], or returns an object; it never returns an array, a string, a
    number or a boolean. *)
Theorem extractAndParseJSON_null_or_object (text : JSString) :
  extractAndParseJSON text = Throw notFoundError \/
  extractAndParseJSON text = Normal VNull \/
  exists props, extractAndParseJSON text = Normal (VObject props).
Proof.
  unfold extractAndParseJSON, extractCandidate.
  destruct (stringMatch reObject text) as [c|] eqn:E; [|left; reflexivity].
  right.
  destruct (stringMatch_reObject_shape _ _ E) as [pre [mid [post [_ [-> _]]]]].
  destruct (repair_keeps_lbrace (mid ++ [rbrace])) as [s' ->].
  unfold parseStep.
  destruct (JSON_parse (lbrace :: s')) as [v|] eqn:P; [|left; reflexivity].
  destruct (JSON_parse_brace _ _ P) as [props ->]. right. eauto.
Qed.

(** ** The mapping step on any parsed value *)

Section TransformFacts.

Variable host : Host.

Lemma mapMaterial_propsOf (m : JSValue) (st : State) :
  isNullish m = false ->
  mapMaterial host m st = mapMaterial host (VObject (propsOf m)) st.
Proof. destruct m; intros H; try discriminate; reflexivity. Qed.

Lemma mapLabor_propsOf (l : JSValue) (st : State) :
  isNullish l = false ->
  mapLabor host l st = mapLabor host (VObject (propsOf l)) st.
Proof. destruct l; intros H; try discriminate; reflexivity. Qed.

Lemma mapMaterial_nullish (m : JSValue) (st : State) :
  isNullish m = true ->
  mapMaterial host m st
  = (Throw (typeError (nullishReadMessage host m (str "materialId"))), st).
Proof. destruct m; intros H; try discriminate; reflexivity. Qed.

Lemma mapLabor_nullish (l : JSValue) (st : State) :
  isNullish l = true ->
  mapLabor host l st
  = (Throw (typeError (nullishReadMessage host l (str "laborId"))), st).
Proof. destruct l; intros H; try discriminate; reflexivity. Qed.

(** One item: the record is built from the own properties of the item,
    and an identifier is drawn exactly when the item needs one. *)
Lemma mapMaterial_item (m : JSValue) (st : State) :
  isNullish m = false ->
  exists mat,
    mapMaterial host m st
    = (Normal mat,
       drawn (if needsId (str "materialId") m then 1 else 0) st) /\
    mat = materialOf (Material.id mat) (propsOf m) /\
    (needsId (str "materialId") m = false ->
       Material.id mat = own (propsOf m) (str "materialId")) /\
    (needsId (str "materialId") m = true ->
       Material.id mat = nextId host st).
Proof.
  intros H. rewrite (mapMaterial_propsOf _ _ H), mapMaterial_object.
  unfold needsId.
  destruct (toBoolean (own (propsOf m) (str "materialId"))); simpl negb;
    cbv iota.
  - rewrite drawn_zero. eexists. split; [reflexivity|].
    repeat split; intros; try reflexivity; discriminate.
  - eexists. split; [reflexivity|].
    repeat split; intros; try reflexivity; discriminate.
Qed.

Lemma mapLabor_item (l : JSValue) (st : State) :
  isNullish l = false ->
  exists lab,
    mapLabor host l st
    = (Normal lab,
       drawn (if needsId (str "laborId") l then 1 else 0) st) /\
    lab = laborOf (LaborItem.id lab) (propsOf l) /\
    (needsId (str "laborId") l = false ->
       LaborItem.id lab = own (propsOf l) (str "laborId")) /\
    (needsId (str "laborId") l = true ->
       LaborItem.id lab = nextId host st).
Proof.
  intros H. rewrite (mapLabor_propsOf _ _ H), mapLabor_object.
  unfold needsId.
  destruct (toBoolean (own (propsOf l) (str "laborId"))); simpl negb;
    cbv iota.
  - rewrite drawn_zero. eexists. split; [reflexivity|].
    repeat split; intros; try reflexivity; discriminate.
  - eexists. split; [reflexivity|].
    repeat split; intros; try reflexivity; discriminate.
Qed.

Lemma mapM_items {B : Type} (f : JSValue -> M B) (need : JSValue -> bool)
  (R : JSValue -> B -> Prop) :
  (forall m st, isNullish m = false ->
     exists b,
       f m st = (Normal b, drawn (if need m then 1 else 0) st) /\ R m b) ->
  forall ms st,
  forallb (fun m => negb (isNullish m)) ms = true ->
  exists bs,
    mapM f ms st = (Normal bs, drawn (List.length (filter need ms)) st) /\
    Forall2 R ms bs.
Proof.
  intros Hf ms. induction ms as [|m ms IH]; intros st H.
  - exists []. simpl. unfold ret. rewrite drawn_zero. split; constructor.
  - simpl in H. apply andb_true_iff in H as [Hm Hms].
    apply negb_true_iff in Hm.
    destruct (Hf m st Hm) as [b [Eb Rb]].
    destruct (IH (drawn (if need m then 1 else 0) st) Hms) as [bs [Ebs Rbs]].
    exists (b :: bs). split; [|constructor; assumption].
    simpl mapM. unfold bind at 1. rewrite Eb. unfold bind at 1.
    rewrite Ebs. unfold ret. rewrite drawn_drawn. simpl filter.
    destruct (need m); simpl; do 2 f_equal; lia.
Qed.

Lemma mapM_fails {B : Type} (f : JSValue -> M B) :
  (forall m st, isNullish m = false ->
     exists b st', f m st = (Normal b, st')) ->
  (forall m st, isNullish m = true ->
     exists msg, f m st = (Throw (typeError msg), st)) ->
  forall ms st,
  forallb (fun m => negb (isNullish m)) ms = false ->
  exists msg st', mapM f ms st = (Throw (typeError msg), st').
Proof.
  intros Hok Hbad ms. induction ms as [|m ms IH]; intros st H.
  - discriminate.
  - simpl in H. simpl mapM. unfold bind at 1.
    destruct (isNullish m) eqn:Em.
    + destruct (Hbad m st Em) as [msg ->]. eauto.
    + simpl in H. destruct (Hok m st Em) as [b [st1 ->]].
      unfold bind at 1. destruct (IH st1 H) as [msg [st' ->]]. eauto.
Qed.

Lemma callMap_materials (what : JSString) (v : JSValue) (st : State) :
  if mappable v then
    exists ms mats,
      v = VArray ms /\
      callMap host what v (mapMaterial host) st
      = (Normal mats,
         drawn (List.length (filter (needsId (str "materialId")) ms)) st) /\
      Forall2
        (fun m mat =>
           mat = materialOf (Material.id mat) (propsOf m) /\
           (needsId (str "materialId") m = false ->
              Material.id mat = own (propsOf m) (str "materialId")))
        ms mats
  else
    exists msg st',
      callMap host what v (mapMaterial host) st
      = (Throw (typeError msg), st').
Proof.
  destruct v as [| | | | |items|]; simpl mappable; cbv iota;
    try (unfold callMap, lift; eauto; fail).
  destruct (forallb (fun m => negb (isNullish m)) items) eqn:E.
  - destruct (mapM_items (mapMaterial host) (needsId (str "materialId"))
                (fun m mat =>
                   mat = materialOf (Material.id mat) (propsOf m) /\
                   (needsId (str "materialId") m = false ->
                      Material.id mat = own (propsOf m) (str "materialId"))))
      with (ms := items) (st := st) as [mats [Em Rm]]; [|exact E|].
    + intros m s Hm. destruct (mapMaterial_item m s Hm) as [mat [A [B [C _]]]].
      exists mat. repeat split; assumption.
    + exists items, mats. repeat split; assumption.
  - apply mapM_fails; [| |exact E].
    + intros m s Hm. destruct (mapMaterial_item m s Hm) as [mat [A _]]. eauto.
    + intros m s Hm. rewrite (mapMaterial_nullish _ _ Hm). eauto.
Qed.

Lemma callMap_labor (what : JSString) (v : JSValue) (st : State) :
  if mappable v then
    exists ls labs,
      v = VArray ls /\
      callMap host what v (mapLabor host) st
      = (Normal labs,
         drawn (List.length (filter (needsId (str "laborId")) ls)) st) /\
      Forall2
        (fun l lab =>
           lab = laborOf (LaborItem.id lab) (propsOf l) /\
           (needsId (str "laborId") l = false ->
              LaborItem.id lab = own (propsOf l) (str "laborId")))
        ls labs
  else
    exists msg st',
      callMap host what v (mapLabor host) st
      = (Throw (typeError msg), st').
Proof.
  destruct v as [| | | | |items|]; simpl mappable; cbv iota;
    try (unfold callMap, lift; eauto; fail).
  destruct (forallb (fun m => negb (isNullish m)) items) eqn:E.
  - destruct (mapM_items (mapLabor host) (needsId (str "laborId"))
                (fun l lab =>
                   lab = laborOf (LaborItem.id lab) (propsOf l) /\
                   (needsId (str "laborId") l = false ->
                      LaborItem.id lab = own (propsOf l) (str "laborId"))))
      with (ms := items) (st := st) as [labs [El Rl]]; [|exact E|].
    + intros m s Hm. destruct (mapLabor_item m s Hm) as [lab [A [B [C _]]]].
      exists lab. repeat split; assumption.
    + exists items, labs. repeat split; assumption.
  - apply mapM_fails; [| |exact E].
    + intros m s Hm. destruct (mapLabor_item m s Hm) as [lab [A _]]. eauto.
    + intros m s Hm. rewrite (mapLabor_nullish _ _ Hm). eauto.
Qed.

Lemma transform_object (props : list (JSString * JSValue)) (st : State) :
  transform host (VObject props) st =
  bind (callMap host (str "parsedEstimation.materials.map")
          (own props (str "materials")) (mapMaterial host))
    (fun materials =>
       bind (callMap host (str "parsedEstimation.labor.map")
               (own props (str "labor")) (mapLabor host))
         (fun labor =>
            ret (ProjectDetails.mk (own props (str "projectName"))
                   (own props (str "length")) (own props (str "width"))
                   (own props (str "height")) materials labor))) st.
Proof. unfold transform. rewrite !getProp_object. reflexivity. Qed.

Lemma transform_not_object (v : JSValue) (st : State) :
  match v with VObject _ => False | _ => True end ->
  exists msg st', transform host v st = (Throw (typeError msg), st').
Proof.
  destruct v; intros H; try contradiction;
    unfold transform, bind, lift, getProp, callMap; simpl; eauto.
Qed.

End TransformFacts.

(** X7: the mapping of a parsed value either gives a record or throws a
    [TypeError]; it gives a record exactly when the value is an object
    whose [materials] and [labor] are arrays without [null] items. *)
Theorem transform_record_or_type_error (host : Host) (v : JSValue)
  (st : State) :
  if transformable v
  then exists details n, transform host v st = (Normal details, drawn n st)
  else exists msg st', transform host v st = (Throw (typeError msg), st').
Proof.
  destruct v as [| | | | | |props];
    try (apply transform_not_object; exact I).
  simpl transformable. rewrite transform_object.
  pose proof (callMap_materials host (str "parsedEstimation.materials.map")
                (own props (str "materials")) st) as Hm.
  destruct (mappable (own props (str "materials"))).
  - destruct Hm as [ms [mats [_ [Em _]]]].
    pose proof (callMap_labor host (str "parsedEstimation.labor.map")
                  (own props (str "labor"))
                  (drawn (List.length
                            (filter (needsId (str "materialId")) ms)) st))
      as Hl.
    destruct (mappable (own props (str "labor"))); simpl andb; cbv iota.
    + destruct Hl as [ls [labs [_ [El _]]]]. do 2 eexists.
      unfold bind. cbv beta. rewrite Em. cbv beta iota. rewrite El.
      unfold ret. rewrite drawn_drawn. reflexivity.
    + destruct Hl as [msg [st' El]]. do 2 eexists.
      unfold bind. cbv beta. rewrite Em. cbv beta iota. rewrite El.
      reflexivity.
  - simpl andb. cbv iota. destruct Hm as [msg [st' Em]]. do 2 eexists.
    unfold bind at 1. cbv beta. rewrite Em. reflexivity.
Qed.

(** X8: when the mapping gives a record, the parsed value is an object
    with arrays under [materials] and [labor]; [projectName], [length],
    [width] and [height] are copied as they are (undefined when
    absent); each material and labor item is built from the item at the
    same place of its array, keeps a usable [materialId] or [laborId]
    as its id, and one identifier is drawn for each item without. *)
Theorem transform_result (host : Host) (v : JSValue) (st st' : State)
  (details : ProjectDetails.t)
  (Hok : transform host v st = (Normal details, st')) :
  exists props ms ls,
    v = VObject props /\
    own props (str "materials") = VArray ms /\
    own props (str "labor") = VArray ls /\
    ProjectDetails.projectName details = own props (str "projectName") /\
    ProjectDetails.length details = own props (str "length") /\
    ProjectDetails.width details = own props (str "width") /\
    ProjectDetails.height details = own props (str "height") /\
    Forall2
      (fun m mat =>
         mat = materialOf (Material.id mat) (propsOf m) /\
         (needsId (str "materialId") m = false ->
            Material.id mat = own (propsOf m) (str "materialId")))
      ms (ProjectDetails.materials details) /\
    Forall2
      (fun l lab =>
         lab = laborOf (LaborItem.id lab) (propsOf l) /\
         (needsId (str "laborId") l = false ->
            LaborItem.id lab = own (propsOf l) (str "laborId")))
      ls (ProjectDetails.labor details) /\
    st' = drawn (List.length (filter (needsId (str "laborId")) ls)
                 + List.length (filter (needsId (str "materialId")) ms)) st.
Proof.
  destruct v as [| | | | | |props];
    try (match type of Hok with
         | transform _ ?w _ = _ =>
             destruct (transform_not_object host w st I) as [msg0 [st0 E0]]
         end; rewrite E0 in Hok; discriminate).
  rewrite transform_object in Hok.
  pose proof (callMap_materials host (str "parsedEstimation.materials.map")
                (own props (str "materials")) st) as Hm.
  destruct (mappable (own props (str "materials"))).
  - destruct Hm as [ms [mats [Vm [Em Rm]]]].
    unfold bind at 1 in Hok. rewrite Em in Hok. cbv beta iota in Hok.
    pose proof (callMap_labor host (str "parsedEstimation.labor.map")
                  (own props (str "labor"))
                  (drawn (List.length
                            (filter (needsId (str "materialId")) ms)) st))
      as Hl.
    destruct (mappable (own props (str "labor"))).
    + destruct Hl as [ls [labs [Vl [El Rl]]]].
      unfold bind in Hok. rewrite El in Hok. unfold ret in Hok.
      injection Hok as <- <-. rewrite drawn_drawn.
      exists props, ms, ls. repeat split; assumption.
    + destruct Hl as [msg [s El]]. unfold bind in Hok. rewrite El in Hok.
      discriminate.
  - destruct Hm as [msg [s Em]]. unfold bind at 1 in Hok. rewrite Em in Hok.
    discriminate.
Qed.

Lemma transform_result_witness :
  exists props ms ls,
    oneMaterial = VObject props /\
    own props (str "materials") = VArray ms /\
    own props (str "labor") = VArray ls /\
    ProjectDetails.projectName oneMaterialDetails
      = own props (str "projectName") /\
    ProjectDetails.length oneMaterialDetails = own props (str "length") /\
    ProjectDetails.width oneMaterialDetails = own props (str "width") /\
    ProjectDetails.height oneMaterialDetails = own props (str "height") /\
    Forall2
      (fun m mat =>
         mat = materialOf (Material.id mat) (propsOf m) /\
         (needsId (str "materialId") m = false ->
            Material.id mat = own (propsOf m) (str "materialId")))
      ms (ProjectDetails.materials oneMaterialDetails) /\
    Forall2
      (fun l lab =>
         lab = laborOf (LaborItem.id lab) (propsOf l) /\
         (needsId (str "laborId") l = false ->
            LaborItem.id lab = own (propsOf l) (str "laborId")))
      ls (ProjectDetails.labor oneMaterialDetails) /\
    drawn 1 idle
    = drawn (List.length (filter (needsId (str "laborId")) ls)
             + List.length (filter (needsId (str "materialId")) ms)) idle.
Proof.
  exact (transform_result exampleHost oneMaterial idle (drawn 1 idle)
           oneMaterialDetails eq_refl).
Defined.

Section FieldFacts.

Lemma pick_truthy (v d : JSValue) :
  toBoolean d = true -> toBoolean (pick v d) = true.
Proof.
  intros H. unfold pick. destruct (toBoolean v) eqn:E; assumption.
Qed.

Lemma pick_or_default (v d : JSValue) :
  toBoolean (pick v d) = true \/ pick v d = d.
Proof.
  unfold pick. destruct (toBoolean v) eqn:E; [left; exact E|right; reflexivity].
Qed.

End FieldFacts.

(** X9: in every mapped material the id, the name and the unit are
    truthy (given that the generator returns no empty identifier), and
    costPerUnit and description are truthy or their defaults, 0 and the
    empty string; likewise id, role, costPerHour and description of a
    labor item.  Only quantity and hours can be undefined or null. *)
Theorem mapped_fields_never_missing (host : Host)
  (m l : JSValue) (st st1 st2 : State)
  (mat : Material.t) (lab : LaborItem.t)
  (Hne : forall i, uuidAt host i <> [])
  (Hm : mapMaterial host m st = (Normal mat, st1))
  (Hl : mapLabor host l st = (Normal lab, st2)) :
  (toBoolean (Material.id mat) = true /\
   toBoolean (Material.name mat) = true /\
   toBoolean (Material.unit mat) = true /\
   (toBoolean (Material.costPerUnit mat) = true \/
    Material.costPerUnit mat = ofN 0) /\
   (toBoolean (Material.description mat) = true \/
    Material.description mat = VString [])) /\
  (toBoolean (LaborItem.id lab) = true /\
   toBoolean (LaborItem.role lab) = true /\
   (toBoolean (LaborItem.costPerHour lab) = true \/
    LaborItem.costPerHour lab = ofN 0) /\
   (toBoolean (LaborItem.description lab) = true \/
    LaborItem.description lab = VString [])).
Proof.
  assert (Hid : toBoolean (nextId host st) = true).
  { unfold nextId. simpl. specialize (Hne (uuidCalls st)).
    destruct (uuidAt host (uuidCalls st)); [contradiction|reflexivity]. }
  split.
  - destruct (isNullish m) eqn:Em.
    { rewrite (mapMaterial_nullish _ _ _ Em) in Hm. discriminate. }
    rewrite (mapMaterial_propsOf _ _ _ Em), mapMaterial_object in Hm.
    destruct (toBoolean (own (propsOf m) (str "materialId"))) eqn:Ei;
      injection Hm as <- _; simpl;
      (split; [assumption|]);
      (split; [apply pick_truthy; reflexivity|]);
      (split; [apply pick_truthy; reflexivity|]);
      split; apply pick_or_default.
  - destruct (isNullish l) eqn:El.
    { rewrite (mapLabor_nullish _ _ _ El) in Hl. discriminate. }
    rewrite (mapLabor_propsOf _ _ _ El), mapLabor_object in Hl.
    destruct (toBoolean (own (propsOf l) (str "laborId"))) eqn:Ei;
      injection Hl as <- _; simpl;
      (split; [assumption|]);
      (split; [apply pick_truthy; reflexivity|]);
      split; apply pick_or_default.
Qed.

Lemma mapped_fields_never_missing_witness :
  toBoolean (Material.name (materialOf (nextId exampleHost idle)
                              [(str "quantity", ofN 5)])) = true.
Proof.
  exact (proj1 (proj2 (proj1
    (mapped_fields_never_missing exampleHost quantityOnly (VObject [])
       idle (drawn 1 idle) (drawn 1 idle)
       (materialOf (nextId exampleHost idle) [(str "quantity", ofN 5)])
       (laborOf (nextId exampleHost idle) [])
       (proj2 exampleHost_fresh) eq_refl eq_refl)))).
Defined.

(** ** Runs of the analysis *)

(** X10: a run in which the service, the extraction or the mapping
    throws ends with loading off, the text of the error shown (the
    message of an [Error], the fallback otherwise), no estimate stored,
    whatever was stored before, and no call to the callback. *)
Theorem failed_run_outcome (host : Host)
  (onEstimationComplete : ProjectDetails.t -> Completion unit)
  (response : Completion JSString) (st st1 : State) (err : Thrown)
  (Hfail : estimate host response (started st) = (Throw err, st1)) :
  let final := snd (analyzeProject host onEstimationComplete response st) in
  isLoading final = false /\
  error final = errorText err /\
  estimation final = None /\
  calls final = calls st.
Proof.
  pose proof (analyzeProject_outcome host onEstimationComplete response st)
    as H.
  cbv zeta in *. rewrite Hfail in H. simpl fst in H.
  destruct H as [Hl [Hc [He Hr]]]. repeat split; assumption.
Qed.

Lemma failed_run_outcome_witness :
  estimation
    (snd (analyzeProject exampleHost (fun _ => Normal tt)
            (Throw (NotAnError (VString (str "offline"))))
            {| isLoading := false; error := [];
               estimation := Some shedDetails; calls := [];
               uuidCalls := 2 |}))
  = None.
Proof.
  refine (proj1 (proj2 (proj2
    (failed_run_outcome exampleHost (fun _ => Normal tt)
       (Throw (NotAnError (VString (str "offline")))) _ _ _ eq_refl)))).
Defined.

(** X11: a run in which lines 85 to 112 give a record ends with loading
    off and the record stored; the error text is empty when the callback
    returns, and when the callback throws the text of what it threw is
    shown beside the stored record. *)
Theorem successful_run_outcome (host : Host)
  (onEstimationComplete : ProjectDetails.t -> Completion unit)
  (response : Completion JSString) (st st1 : State)
  (details : ProjectDetails.t)
  (Hok : estimate host response (started st) = (Normal details, st1)) :
  let final := snd (analyzeProject host onEstimationComplete response st) in
  isLoading final = false /\
  estimation final = Some details /\
  error final =
    match onEstimationComplete details with
    | Normal _ => []
    | Throw err => errorText err
    end.
Proof.
  pose proof (analyzeProject_outcome host onEstimationComplete response st)
    as H.
  cbv zeta in *. rewrite Hok in H. simpl fst in H.
  destruct H as [Hl [Hc [He Hr]]]. repeat split; assumption.
Qed.

Lemma successful_run_outcome_witness :
  let final :=
    snd (analyzeProject exampleHost
           (fun _ => Throw (ErrorInstance (str "Error") (str "no room")))
           (Normal shedAnswer) idle) in
  estimation final = Some shedDetails /\ error final = str "no room".
Proof.
  pose proof (successful_run_outcome exampleHost
                (fun _ => Throw (ErrorInstance (str "Error") (str "no room")))
                (Normal shedAnswer) idle (drawn 2 (started idle)) shedDetails)
    as H.
  cbv zeta in *. split; apply H; vm_compute; reflexivity.
Defined.

(** X12: when the answer of the model has no [{] with a [}] after it,
    the run ends with the message "JSON object not found.", loading off,
    no estimate, no call to the callback and no identifier drawn. *)
Theorem no_span_run (host : Host)
  (onEstimationComplete : ProjectDetails.t -> Completion unit)
  (text : JSString) (st : State)
  (Hnone : ~ hasSpan text) :
  snd (analyzeProject host onEstimationComplete (Normal text) st)
  = {| isLoading := false; error := str "JSON object not found.";
       estimation := None; calls := calls st; uuidCalls := uuidCalls st |}.
Proof.
  apply no_candidate_iff_no_span in Hnone.
  unfold analyzeProject, andFinally, tryCatch, bind, lift, normalize,
    extractAndParseJSON, setIsLoading, setError, setEstimation.
  simpl. rewrite Hnone. reflexivity.
Qed.

Lemma no_span_run_witness :
  snd (analyzeProject exampleHost (fun _ => Normal tt)
         (Normal (str "} then {")) idle)
  = {| isLoading := false; error := str "JSON object not found.";
       estimation := None; calls := []; uuidCalls := 0 |}.
Proof.
  apply (no_span_run exampleHost (fun _ => Normal tt) (str "} then {") idle).
  apply no_candidate_iff_no_span. reflexivity.
Defined.

(** ** The trigger and the rendered fields *)

Section ViewFacts.

Lemma trimStart_nil_iff (s : JSString) :
  trimStart s = [] <-> forallb isRegexSpace s = true.
Proof.
  induction s as [|c s IH]; simpl; [tauto|].
  destruct (isRegexSpace c); simpl; [exact IH|].
  split; discriminate.
Qed.

Lemma trimStart_keeps (s : JSString) :
  forallb isRegexSpace s = false ->
  forallb isRegexSpace (trimStart s) = false.
Proof.
  induction s as [|c s IH]; simpl; [discriminate|].
  destruct (isRegexSpace c) eqn:E; simpl; [exact IH|].
  intros _. rewrite E. reflexivity.
Qed.

Lemma forallb_rev (p : CodeUnit -> bool) (s : JSString) :
  forallb p (rev s) = forallb p s.
Proof.
  induction s as [|c s IH]; [reflexivity|].
  simpl. rewrite forallb_app, IH. simpl. rewrite andb_true_r.
  apply andb_comm.
Qed.

Lemma rev_nil_iff (s : JSString) : rev s = [] <-> s = [].
Proof.
  split; intros H.
  - apply (f_equal (@rev CodeUnit)) in H. rewrite rev_involutive in H.
    exact H.
  - subst s. reflexivity.
Qed.

Lemma trim_nil_iff (s : JSString) :
  trim s = [] <-> forallb isRegexSpace s = true.
Proof.
  unfold trim, trimEnd. rewrite rev_nil_iff, trimStart_nil_iff, forallb_rev.
  split; intros H.
  - destruct (forallb isRegexSpace s) eqn:E; [reflexivity|].
    rewrite (trimStart_keeps _ E) in H. discriminate.
  - apply trimStart_nil_iff in H. rewrite H. reflexivity.
Qed.

End ViewFacts.

(** X13: the analysis cannot be started while a run is loading, nor
    when the description is empty or made of white space and line
    terminators only; in every other case it can. *)
Theorem analysisDisabled_iff_blank (loading : bool)
  (projectDescription : JSString) :
  analysisDisabled loading projectDescription
  = loading || forallb isRegexSpace projectDescription.
Proof.
  unfold analysisDisabled. f_equal.
  pose proof (trim_nil_iff projectDescription) as H.
  destruct (trim projectDescription) as [|c t] eqn:E; simpl.
  - symmetry. apply H. reflexivity.
  - destruct (forallb isRegexSpace projectDescription); [|reflexivity].
    destruct H as [_ H]. discriminate (H eq_refl).
Qed.

(** X14: the value of [description || 'No description provided'] for
    a mapped material is the parsed description when that is truthy and
    the placeholder otherwise, so the empty default of the mapping is
    never handed on; the value is truthy, and when the parsed
    description is a string it is that string or, when that is empty,
    the placeholder. *)
Theorem description_or_placeholder (host : Host) (m : JSValue)
  (st st' : State) (mat : Material.t)
  (Hm : mapMaterial host m st = (Normal mat, st')) :
  let parsed := own (propsOf m) (str "description") in
  descriptionOrPlaceholder (Material.description mat)
  = pick parsed noDescription /\
  toBoolean (descriptionOrPlaceholder (Material.description mat)) = true /\
  (forall s, parsed = VString s ->
     descriptionOrPlaceholder (Material.description mat)
     = VString (match s with
                | [] => str "No description provided"
                | _ :: _ => s
                end)).
Proof.
  destruct (isNullish m) eqn:Em.
  { rewrite (mapMaterial_nullish _ _ _ Em) in Hm. discriminate. }
  rewrite (mapMaterial_propsOf _ _ _ Em), mapMaterial_object in Hm.
  assert (E : Material.description mat
              = pick (own (propsOf m) (str "description")) (VString [])).
  { destruct (toBoolean (own (propsOf m) (str "materialId")));
      injection Hm as <- _; reflexivity. }
  cbv zeta. rewrite E. unfold descriptionOrPlaceholder, pick.
  destruct (toBoolean (own (propsOf m) (str "description"))) eqn:Ed.
  - rewrite Ed. split; [reflexivity|]. split; [exact Ed|].
    intros s Es. rewrite Es in *. destruct s; [discriminate|reflexivity].
  - split; [reflexivity|]. split; [reflexivity|].
    intros s Es. rewrite Es in *. destruct s; [reflexivity|discriminate].
Qed.

Lemma description_or_placeholder_witness :
  descriptionOrPlaceholder
    (Material.description
       (materialOf (nextId exampleHost idle) [(str "quantity", ofN 5)]))
  = noDescription /\
  descriptionOrPlaceholder
    (Material.description
       (materialOf (nextId exampleHost idle) (propsOf described)))
  = VString (str "18 mm sheets").
Proof.
  split.
  - exact (proj1 (description_or_placeholder exampleHost quantityOnly idle
                    (drawn 1 idle)
                    (materialOf (nextId exampleHost idle)
                       [(str "quantity", ofN 5)]) eq_refl)).
  - exact (proj2 (proj2 (description_or_placeholder exampleHost described
                           idle (drawn 1 idle)
                           (materialOf (nextId exampleHost idle)
                              (propsOf described)) eq_refl))
             (str "18 mm sheets") eq_refl).
Defined.

(** X15: the cost of a mapped material can be formatted exactly when
    the parsed costPerUnit is a number or falsy (then 0 is formatted);
    a truthy costPerUnit that is not a number, such as the string "25",
    makes [toFixed] throw a [TypeError].  The cost is never missing. *)
Theorem cost_label (host : Host) (toFixed2 : Q -> JSString)
  (what : JSString) (m : JSValue) (st st' : State) (mat : Material.t)
  (Hm : mapMaterial host m st = (Normal mat, st')) :
  let parsed := own (propsOf m) (str "costPerUnit") in
  costLabel host toFixed2 what (Material.costPerUnit mat) =
  if toBoolean parsed then
    match parsed with
    | VNumber q => Normal (toFixed2 q)
    | _ => Throw (typeError (notAFunctionMessage host what))
    end
  else Normal (toFixed2 (0 # 1)).
Proof.
  destruct (isNullish m) eqn:Em.
  { rewrite (mapMaterial_nullish _ _ _ Em) in Hm. discriminate. }
  rewrite (mapMaterial_propsOf _ _ _ Em), mapMaterial_object in Hm.
  assert (E : Material.costPerUnit mat
              = pick (own (propsOf m) (str "costPerUnit")) (ofN 0)).
  { destruct (toBoolean (own (propsOf m) (str "materialId")));
      injection Hm as <- _; reflexivity. }
  cbv zeta. rewrite E. unfold pick.
  destruct (own (propsOf m) (str "costPerUnit")) as [| |b|q|s|items|props];
    simpl toBoolean; cbv iota; try reflexivity.
  - destruct b; reflexivity.
  - destruct (negb (roundsToZero q)); reflexivity.
  - destruct s; reflexivity.
Qed.

Lemma cost_label_witness :
  costLabel exampleHost (fun _ => str "0.00")
    (str "material.costPerUnit.toFixed")
    (Material.costPerUnit
       (materialOf (nextId exampleHost idle) (propsOf stringCost)))
  = Throw (typeError (str "material.costPerUnit.toFixed is not a function")).
Proof.
  exact (cost_label exampleHost (fun _ => str "0.00")
           (str "material.costPerUnit.toFixed") stringCost idle
           (drawn 1 idle)
           (materialOf (nextId exampleHost idle) (propsOf stringCost))
           eq_refl).
Defined.

(** ** Prose around the braces *)

Section ProseFacts.

Lemma lastIndexOf_app_absent (c : CodeUnit) (s post : JSString) :
  hasChar c post = false ->
  lastIndexOf c (s ++ post) = lastIndexOf c s.
Proof.
  intros H. induction s as [|x s IH].
  - simpl. apply lastIndexOf_absent, H.
  - simpl. rewrite IH. reflexivity.
Qed.

Lemma hasChar_app (c : CodeUnit) (a b : JSString) :
  hasChar c a = false -> hasChar c b = false -> hasChar c (a ++ b) = false.
Proof.
  unfold hasChar. intros Ha Hb. rewrite existsb_app.
  apply orb_false_iff. split; assumption.
Qed.

Lemma stringMatch_ignores_tail (text post : JSString) :
  hasChar rbrace post = false ->
  stringMatch reObject (text ++ post) = stringMatch reObject text.
Proof.
  intros H. induction text as [|x t IH].
  - simpl app. rewrite stringMatch_no_rbrace; [reflexivity|].
    apply lastIndexOf_absent, H.
  - rewrite <- app_comm_cons. destruct (x =? lbrace) eqn:Ex.
    + apply N.eqb_eq in Ex. subst x.
      destruct (lastIndexOf rbrace t) as [j|] eqn:El.
      * destruct (lastIndexOf_some _ _ _ El) as [mid [post0 [-> [_ P]]]].
        rewrite <- app_assoc, <- app_comm_cons.
        rewrite (stringMatch_here _ _ _ _
                   (reObject_to_last mid (post0 ++ post)
                      (hasChar_app _ _ _ P H))).
        rewrite (stringMatch_here _ _ _ _ (reObject_to_last mid post0 P)).
        reflexivity.
      * rewrite !stringMatch_cons.
        -- exact IH.
        -- rewrite reObject_here, N.eqb_refl, El. reflexivity.
        -- rewrite reObject_here, N.eqb_refl,
             (lastIndexOf_app_absent _ _ _ H), El. reflexivity.
    + rewrite !stringMatch_cons
        by (rewrite reObject_here, Ex; reflexivity).
      exact IH.
Qed.

End ProseFacts.

(** X16: prose without [{] before a text and prose without [}] after
    it change nothing: the extraction step finds in the longer text the
    candidate it finds in the text alone, or fails as it does there. *)
Theorem extraction_ignores_outer_prose (pre text post : JSString)
  (Hpre : hasChar lbrace pre = false)
  (Hpost : hasChar rbrace post = false) :
  extractCandidate (pre ++ text ++ post) = extractCandidate text.
Proof.
  unfold extractCandidate.
  rewrite (stringMatch_skips_prose _ _ Hpre).
  rewrite (stringMatch_ignores_tail _ _ Hpost). reflexivity.
Qed.

Lemma extraction_ignores_outer_prose_witness :
  extractCandidate (str "Here you go: " ++ smileySpan ++ str " Enjoy!")
  = extractCandidate smileySpan.
Proof.
  apply (extraction_ignores_outer_prose (str "Here you go: ") smileySpan
           (str " Enjoy!")); reflexivity.
Defined.

(** ** C4 *)

(** C4, as the specification states it, fails: a fresh identifier is
    not generated for every material and labor item.  A parsed item
    with a truthy [materialId] or [laborId] keeps that value as its id,
    and nothing is drawn from the generator. *)
Lemma supplied_id_is_kept :
  mapMaterial exampleHost suppliedMaterialId idle
  = (Normal (materialOf (VString (str "m1")) (propsOf suppliedMaterialId)),
     idle) /\
  VString (str "m1") <> nextId exampleHost idle /\
  mapLabor exampleHost suppliedLaborId idle
  = (Normal (laborOf (VString (str "l1")) (propsOf suppliedLaborId)), idle) /\
  VString (str "l1") <> nextId exampleHost idle.
Proof.
  repeat split; try reflexivity; vm_compute; discriminate.
Qed.

(** C4, amended: the mapping reads [materialId] on a material and
    [laborId] on a labor item as the only source of an id, and these are
    not fields of the output schema of the prompt.  The id of a mapped
    item is that value when it is truthy, and nothing is generated then;
    when it is absent or falsy the id is a freshly generated
    identifier.  The [id] field of the parsed object is never read, so
    every item of the schema of the prompt gets a generated id, with or
    without its [id]. *)
Theorem id_source_is_materialId (host : Host) (st : State) (m l : JSValue)
  (Hm : isNullish m = false) (Hl : isNullish l = false) :
  mapMaterial host m st
  = (if needsId (str "materialId") m
     then (Normal (materialOf (nextId host st) (propsOf m)), drawn 1 st)
     else (Normal (materialOf (own (propsOf m) (str "materialId"))
                     (propsOf m)), st)) /\
  mapLabor host l st
  = (if needsId (str "laborId") l
     then (Normal (laborOf (nextId host st) (propsOf l)), drawn 1 st)
     else (Normal (laborOf (own (propsOf l) (str "laborId")) (propsOf l)),
           st)) /\
  (forall props v,
     mapMaterial host (VObject (setProp (str "id") v props)) st
     = mapMaterial host (VObject props) st) /\
  (forall props v,
     mapLabor host (VObject (setProp (str "id") v props)) st
     = mapLabor host (VObject props) st) /\
  existsb (eqs (str "materialId")) materialSchema = false /\
  existsb (eqs (str "laborId")) laborSchema = false /\
  (conformsTo materialSchema m = true ->
     needsId (str "materialId") m = true) /\
  (conformsTo laborSchema l = true -> needsId (str "laborId") l = true).
Proof.
  split; [|split; [|split; [|split; [|split; [|split; [|split]]]]]].
  - rewrite (mapMaterial_propsOf _ _ _ Hm), mapMaterial_object.
    unfold needsId.
    destruct (toBoolean (own (propsOf m) (str "materialId"))); reflexivity.
  - rewrite (mapLabor_propsOf _ _ _ Hl), mapLabor_object.
    unfold needsId.
    destruct (toBoolean (own (propsOf l) (str "laborId"))); reflexivity.
  - intros props v. apply mapMaterial_ignores_id.
  - intros props v. apply mapLabor_ignores_id.
  - reflexivity.
  - reflexivity.
  - intros H. destruct m as [| | | | | |props]; try discriminate.
    unfold needsId, own. simpl propsOf.
    rewrite (conforms_absent _ _ _ H); reflexivity.
  - intros H. destruct l as [| | | | | |props]; try discriminate.
    unfold needsId, own. simpl propsOf.
    rewrite (conforms_absent _ _ _ H); reflexivity.
Qed.

Lemma id_source_is_materialId_witness :
  mapMaterial exampleHost schemaMaterial idle
  = (Normal (materialOf (nextId exampleHost idle) (propsOf schemaMaterial)),
     drawn 1 idle) /\
  mapLabor exampleHost suppliedLaborId idle
  = (Normal (laborOf (VString (str "l1")) (propsOf suppliedLaborId)), idle) /\
  needsId (str "materialId") schemaMaterial = true.
Proof.
  pose proof (id_source_is_materialId exampleHost idle schemaMaterial
                suppliedLaborId eq_refl eq_refl) as H.
  split; [exact (proj1 H)|]. split; [exact (proj1 (proj2 H))|].
  apply H. reflexivity.
Defined.

(** ** C8 *)

(** C8, as the specification states it, fails: the two materials of
    [twins] have no [id] field, and the mapping gives both the id "m1",
    their [materialId]; nothing is generated. *)
Lemma ids_collide_without_id_field :
  forallb (fun m => match lookupProp (str "id") (propsOf m) with
                    | None => true
                    | Some _ => false
                    end) twins = true /\
  callMap exampleHost (str "parsedEstimation.materials.map") (VArray twins)
    (mapMaterial exampleHost) idle
  = (Normal [twinMapped; twinMapped], idle) /\
  map Material.id [twinMapped; twinMapped]
  = [VString (str "m1"); VString (str "m1")] /\
  ~ NoDup (map Material.id [twinMapped; twinMapped]).
Proof.
  repeat split; try reflexivity.
  intros H. inversion H as [|x rest Hin Hnd]. apply Hin. left. reflexivity.
Qed.

(** C8, amended: with a generator of fresh identifiers, mapping a list
    of N parsed materials on each of which the id lookup of the mapping
    finds nothing (the item is not [null] and its [materialId] is absent
    or falsy; an [id] field plays no part) gives N records whose ids are
    the N identifiers drawn, pairwise distinct; and so for labor items
    and [laborId]. *)
Theorem generated_ids_distinct (host : Host) (st : State)
  (ms ls : list JSValue) (what : JSString)
  (Hfresh : FreshIds host)
  (Hms : forallb (fun m => negb (isNullish m)
                           && needsId (str "materialId") m) ms = true)
  (Hls : forallb (fun l => negb (isNullish l)
                           && needsId (str "laborId") l) ls = true) :
  (exists mats,
     callMap host what (VArray ms) (mapMaterial host) st
       = (Normal mats, drawn (List.length ms) st) /\
     List.length mats = List.length ms /\
     map Material.id mats =
       map (fun k => VString (uuidAt host (k + uuidCalls st)))
         (seq 0 (List.length ms)) /\
     NoDup (map Material.id mats)) /\
  (exists labs,
     callMap host what (VArray ls) (mapLabor host) st
       = (Normal labs, drawn (List.length ls) st) /\
     List.length labs = List.length ls /\
     map LaborItem.id labs =
       map (fun k => VString (uuidAt host (k + uuidCalls st)))
         (seq 0 (List.length ls)) /\
     NoDup (map LaborItem.id labs)).
Proof.
  destruct Hfresh as [Hinj _]. split.
  - destruct (mapM_generated host (mapMaterial host) Material.id
                (fun m => negb (isNullish m)
                          && needsId (str "materialId") m))
      with (ms := ms) (st := st) as [mats [E I]]; [|exact Hms|].
    + intros m s Hm. apply andb_true_iff in Hm as [Hn Hi].
      apply negb_true_iff in Hn.
      destruct (mapMaterial_item host m s Hn) as [mat [A [_ [_ B]]]].
      rewrite Hi in A. exists mat. split; [exact A|exact (B Hi)].
    + exists mats. repeat split.
      * exact E.
      * apply (f_equal (@List.length JSValue)) in I.
        rewrite !length_map, length_seq in I. exact I.
      * exact I.
      * rewrite I. apply generated_NoDup, Hinj.
  - destruct (mapM_generated host (mapLabor host) LaborItem.id
                (fun l => negb (isNullish l)
                          && needsId (str "laborId") l))
      with (ms := ls) (st := st) as [labs [E I]]; [|exact Hls|].
    + intros m s Hm. apply andb_true_iff in Hm as [Hn Hi].
      apply negb_true_iff in Hn.
      destruct (mapLabor_item host m s Hn) as [lab [A [_ [_ B]]]].
      rewrite Hi in A. exists lab. split; [exact A|exact (B Hi)].
    + exists labs. repeat split.
      * exact E.
      * apply (f_equal (@List.length JSValue)) in I.
        rewrite !length_map, length_seq in I. exact I.
      * exact I.
      * rewrite I. apply generated_NoDup, Hinj.
Qed.

Lemma generated_ids_distinct_witness :
  exists mats,
    callMap exampleHost (str "parsedEstimation.materials.map")
      (VArray [quantityOnly; schemaMaterial; VString (str "plywood")])
      (mapMaterial exampleHost) idle
    = (Normal mats, drawn 3 idle) /\
    List.length mats = 3%nat /\
    map Material.id mats =
      map (fun k => VString (uuidAt exampleHost (k + 0))) (seq 0 3) /\
    NoDup (map Material.id mats).
Proof.
  refine (proj1
    (generated_ids_distinct exampleHost idle
       [quantityOnly; schemaMaterial; VString (str "plywood")]
       [schemaLabor]
       (str "parsedEstimation.materials.map") exampleHost_fresh _ _));
    reflexivity.
Defined.
